(** * A shallow embedding of arc-orm's expression layer, statement builders
    and binding layer (package field, sql and orm). *)

From Stdlib Require Import String Ascii List ZArith Bool Lia DecimalString.
Import ListNotations.
Open Scope string_scope.
#[local] Set Warnings "-register-all".

(* ------------------------------------------------------------------ *)
(** ** Values, errors and results *)

(** The [interface{}] payloads placed in argument lists. A float64 is
    carried as its IEEE-754 bit pattern, a time.Time as a timestamp. *)
Inductive value : Type :=
| VString (s : string)
| VInt64 (z : Z)
| VInt32 (z : Z)
| VFloat64 (bits : Z)
| VBool (b : bool)
| VTime (t : Z).

(** Go [error] values produced by the code. *)
Inductive error : Type :=
| ErrMsg (msg : string)                     (* errors.New / fmt.Errorf *)
| ErrWrap (prefix : string) (e : error)     (* fmt.Errorf("prefix: %w", e) *)
| ErrArg (i : nat) (e : error)              (* fmt.Errorf("arg[%d]: %w", i, e) *)
| ErrSetField (name : string) (e : error)  (* "SET field '%s': %w" *)
| ErrDetail (e : error) (detail : string).  (* fmt.Errorf("%w: detail", e) *)

(** A Go function returning [(x, err)]. *)
Inductive Result (A : Type) : Type :=
| Ok (x : A)
| Err (e : error).
Arguments Ok {A} x.
Arguments Err {A} e.

(** The triple [(string, []interface{}, error)] of [ToSQL]. *)
Definition rendered := (string * list value)%type.

(** strings.Join *)
Fixpoint join (sep : string) (parts : list string) : string :=
  match parts with
  | [] => ""
  | [p] => p
  | p :: ps => p ++ sep ++ join sep ps
  end.

(** The number of [?] placeholders in a fragment. *)
Fixpoint count_qmarks (s : string) : nat :=
  match s with
  | EmptyString => 0
  | String c s' => (if Ascii.eqb c "?"%char then 1 else 0) + count_qmarks s'
  end.

(* ------------------------------------------------------------------ *)
(** ** Fields *)

Inductive field_kind : Type :=
| KString | KInt64 | KInt32 | KFloat64 | KBool | KTime.

(** [StringField], [Int64Field], ... : a column name and a table name. *)
Record Field : Type := mkField {
  FieldName : string;
  TableName : string;
  Kind : field_kind
}.

(** [ToSQL] of a field: [StringField] always qualifies the name; the other
    kinds drop the table qualifier when [TableName] is empty. *)
Definition field_sql (f : Field) : string :=
  match Kind f with
  | KString => "`" ++ TableName f ++ "`.`" ++ FieldName f ++ "`"
  | _ =>
      if String.eqb (TableName f) "" then "`" ++ FieldName f ++ "`"
      else "`" ++ TableName f ++ "`.`" ++ FieldName f ++ "`"
  end.

(* ------------------------------------------------------------------ *)
(** ** Expressions (the [expr.Expr] interface) *)

Inductive Expr : Type :=
| EField (f : Field)                               (* a column *)
| ELit (v : value)                                 (* sql.String, sql.Int64, ... *)
| EComparison (f : Field) (op : string) (v : value) (* comparison *)
| ELike (f : Field) (v : string)                   (* like *)
| EIn (f : Field) (vs : list value)                (* inCondition *)
| EFieldComparison (l : Expr) (op : string) (r : Expr) (* fieldComparison *)
| ENull (f : Field) (isNull : bool)                (* nullCondition *)
| EBetween (f : Field) (start stop : value)        (* between *)
| EBetweenExpr (f : Field) (start stop : Expr)     (* betweenExpr *)
| EOr (conditions : list Expr)                     (* or *)
| EAnd (conditions : list Expr)                    (* and *)
| EParen (e : Expr)                                (* paren *)
| EMath (exprs : list Expr) (op : string)          (* mathOperation *)
| ENoOp                                            (* noOp *)
| EFieldOp (f : Field) (operator : string) (v : value) (* fieldOperation *)
| EFunc (name : string) (args : list Expr)         (* sqlFunc *)
| EAlias (e : Expr) (alias : string)               (* aliasedExpr *)
| EOrder (e : Expr) (desc : bool)                  (* OrderField *)
| ENot (conditions : list Expr)                    (* not *)
| ECustom (r : Result rendered).                   (* any other Expr, e.g. rawCondition *)

(** The loop of [joinCodnitions] over the already rendered conditions:
    an error aborts, an empty fragment is skipped. *)
Fixpoint join_loop (rs : list (Result rendered))
    (sqlParts : list string) (params : list value)
    : Result (list string * list value) :=
  match rs with
  | [] => Ok (sqlParts, params)
  | Err e :: _ => Err e
  | Ok (sql, condParams) :: rs' =>
      if String.eqb sql "" then join_loop rs' sqlParts params
      else join_loop rs' (sqlParts ++ [sql])%list (params ++ condParams)%list
  end.

Definition join_rendered (rs : list (Result rendered)) (op : string)
    : Result rendered :=
  match rs with
  | [] => Ok ("", [])
  | _ =>
      match join_loop rs [] [] with
      | Err e => Err e
      | Ok ([], _) => Ok ("", [])
      | Ok ([p], params) => Ok (p, params)
      | Ok (sqlParts, params) =>
          Ok ("(" ++ join (" " ++ op ++ " ") sqlParts ++ ")", params)
      end
  end.

(** The loop of [mathOperation.ToSQL]. Inside the loop
    [sql, params, err := expr.ToSQL()] declares a fresh [params], so
    [params = append(params, params...)] extends the inner variable only:
    the outer [params] stays the empty slice it was created as. *)
Fixpoint math_loop (rs : list (Result rendered)) (sqlParts : list string)
    : Result (list string) :=
  match rs with
  | [] => Ok sqlParts
  | Err e :: _ => Err e
  | Ok (sql, _) :: rs' => math_loop rs' (sqlParts ++ [sql])%list
  end.

(** The loop of [sqlFunc.ToSQL], wrapping the error with its index. *)
Fixpoint func_loop (i : nat) (rs : list (Result rendered))
    (sqlParts : list string) (params : list value)
    : Result (list string * list value) :=
  match rs with
  | [] => Ok (sqlParts, params)
  | Err e :: _ => Err (ErrArg i e)
  | Ok (sql, p) :: rs' => func_loop (S i) rs' (sqlParts ++ [sql])%list (params ++ p)%list
  end.

Definition bind_r {A B} (r : Result A) (k : A -> Result B) : Result B :=
  match r with Ok x => k x | Err e => Err e end.

(** [ToSQL] of every expression. *)
Fixpoint render (e : Expr) : Result rendered :=
  match e with
  | EField f => Ok (field_sql f, [])
  | ELit v => Ok ("?", [v])
  | EComparison f op v => Ok (field_sql f ++ " " ++ op ++ " ?", [v])
  | ELike f v => Ok (field_sql f ++ " LIKE ?", [VString v])
  | EIn f vs =>
      match vs with
      | [] => Ok ("", [])
      | _ => Ok (field_sql f ++ " IN (" ++ join ", " (map (fun _ => "?") vs) ++ ")", vs)
      end
  | EFieldComparison l op r =>
      bind_r (render l) (fun '(ls, lp) =>
      bind_r (render r) (fun '(rs, rp) =>
      Ok (ls ++ " " ++ op ++ " " ++ rs, (lp ++ rp)%list)))
  | ENull f isNull =>
      if isNull then Ok (field_sql f ++ " IS NULL", [])
      else Ok (field_sql f ++ " IS NOT NULL", [])
  | EBetween f a b => Ok (field_sql f ++ " BETWEEN ? AND ?", [a; b])
  | EBetweenExpr f a b =>
      bind_r (render a) (fun '(as_, ap) =>
      bind_r (render b) (fun '(bs, bp) =>
      Ok (field_sql f ++ " BETWEEN " ++ as_ ++ " AND " ++ bs, (ap ++ bp)%list)))
  | EOr cs => join_rendered (map render cs) "OR"
  | EAnd cs => join_rendered (map render cs) "AND"
  | EParen e1 => bind_r (render e1) (fun '(s, p) => Ok ("(" ++ s ++ ")", p))
  | EMath es op =>
      bind_r (math_loop (map render es) [])
        (fun parts => Ok (join (" " ++ op ++ " ") parts, []))
  | ENoOp => Ok ("", [])
  | EFieldOp f operator v =>
      Ok ("`" ++ TableName f ++ "`.`" ++ FieldName f ++ "`" ++ operator ++ "?", [v])
  | EFunc name args =>
      bind_r (func_loop 0 (map render args) [] [])
        (fun '(parts, params) => Ok (name ++ "(" ++ join ", " parts ++ ")", params))
  | EAlias e1 alias =>
      bind_r (render e1) (fun '(s, p) => Ok (s ++ " AS `" ++ alias ++ "`", p))
  | EOrder e1 desc =>
      bind_r (render e1) (fun '(s, p) =>
        Ok (s ++ (if desc then " DESC" else " ASC"), p))
  | ENot cs =>
      match cs with
      | [] => Ok ("", [])
      | [c] => bind_r (render c) (fun '(s, p) => Ok ("NOT (" ++ s ++ ")", p))
      | _ => bind_r (join_rendered (map render cs) "AND")
               (fun '(s, p) => Ok ("NOT (" ++ s ++ ")", p))
      end
  | ECustom r => r
  end.

(** [joinCodnitions(conditions, op)]. *)
Definition joinCodnitions (conditions : list Expr) (op : string) : Result rendered :=
  join_rendered (map render conditions) op.

(** [mathOpExprs]: zero operands give a no-op, one is returned as is. *)
Definition mathOpExprs (op : string) (exprs : list Expr) : Expr :=
  match exprs with
  | [] => ENoOp
  | [e] => e
  | _ => EMath exprs op
  end.

Definition Add (exprs : list Expr) : Expr := mathOpExprs "+" exprs.
Definition Sub (exprs : list Expr) : Expr := mathOpExprs "-" exprs.
Definition Mul (exprs : list Expr) : Expr := mathOpExprs "*" exprs.
Definition Div (exprs : list Expr) : Expr := mathOpExprs "/" exprs.
Definition And (conditions : list Expr) : Expr := EAnd conditions.
Definition Or (conditions : list Expr) : Expr := EOr conditions.

(* ------------------------------------------------------------------ *)
(** ** Literals and field operations of the SET clauses
    ([field.Expression] with [ToExpressionSQL], used by [sql.UpdateBuilder]) *)

Inductive Expression : Type :=
| XLit (v : value)                                 (* sql.String, sql.Int64, ... *)
| XFieldOp (f : Field) (operator : string) (v : value). (* fieldOperation *)

Definition ToExpressionSQL (x : Expression) : string * value :=
  match x with
  | XLit v => ("", v)
  | XFieldOp f operator v =>
      ("`" ++ TableName f ++ "`.`" ++ FieldName f ++ "`" ++ operator, v)
  end.

(** [Int64Field.Increment] and [Int64Field.Decrement]. *)
Definition Increment (f : Field) (value : Z) : Expression := XFieldOp f "+" (VInt64 value).
Definition Decrement (f : Field) (value : Z) : Expression := XFieldOp f "-" (VInt64 value).

(** [Int64Field.Eq]. *)
Definition Int64_Eq (f : Field) (value : Z) : Expr := EComparison f "=" (VInt64 value).

(* ------------------------------------------------------------------ *)
(** ** INSERT INTO builder (eager SET evaluation with a staged error) *)

Record updateExpr : Type := mkUpdateExpr {
  ue_field : Field;
  ue_expr : string;
  ue_params : list value
}.

Record InsertIntoBuilder : Type := mkInsertIntoBuilder {
  ib_tableName : string;
  ib_updates : list updateExpr;
  ib_err : option error
}.

Definition InsertInto (tableName : string) : InsertIntoBuilder :=
  mkInsertIntoBuilder tableName [] None.

(** [InsertIntoBuilder.Set]: skipped once an error is staged; otherwise the
    value is rendered at once and either stored or its error staged. *)
Definition insert_Set (f : Field) (value : Expr) (b : InsertIntoBuilder)
    : InsertIntoBuilder :=
  match ib_err b with
  | Some _ => b
  | None =>
      match render value with
      | Err e => mkInsertIntoBuilder (ib_tableName b) (ib_updates b)
                   (Some (ErrSetField (FieldName f) e))
      | Ok (exprSQL, exprParams) =>
          mkInsertIntoBuilder (ib_tableName b)
            (ib_updates b ++ [mkUpdateExpr f exprSQL exprParams])%list None
      end
  end.

(** A fluent chain of [Set] calls, in source order. *)
Definition insert_Sets (sets : list (Field * Expr)) (b : InsertIntoBuilder)
    : InsertIntoBuilder :=
  fold_left (fun b' '(f, v) => insert_Set f v b') sets b.

Definition insert_set_part (u : updateExpr) : string :=
  "`" ++ FieldName (ue_field u) ++ "`=" ++ ue_expr u.

(** [InsertIntoBuilder.SQL]. *)
Definition insert_SQL (b : InsertIntoBuilder) : Result rendered :=
  match ib_err b with
  | Some e => Err e
  | None =>
      if String.eqb (ib_tableName b) "" then Err (ErrMsg "table name is required")
      else match ib_updates b with
           | [] => Err (ErrMsg "no columns specified")
           | us =>
               Ok ("INSERT INTO `" ++ ib_tableName b ++ "` SET "
                     ++ join ", " (map insert_set_part us),
                   flat_map ue_params us)
           end
  end.

(* ------------------------------------------------------------------ *)
(** ** UPDATE builder ([sql/update.go]) *)

Record uExpr : Type := mkUExpr {
  u_field : Field;
  u_expr : string;
  u_value : value
}.

Record UpdateBuilder : Type := mkUpdateBuilder {
  ub_tableName : string;
  ub_updates : list uExpr;
  ub_conditions : list Expr
}.

Definition Update (tableName : string) : UpdateBuilder :=
  mkUpdateBuilder tableName [] [].

(** [UpdateBuilder.Set]: [ToExpressionSQL] is evaluated at once. *)
Definition update_Set (f : Field) (x : Expression) (b : UpdateBuilder) : UpdateBuilder :=
  let '(exprSQL, exprValue) := ToExpressionSQL x in
  mkUpdateBuilder (ub_tableName b)
    (ub_updates b ++ [mkUExpr f ("=" ++ exprSQL) exprValue])%list
    (ub_conditions b).

Definition update_Where (conditions : list Expr) (b : UpdateBuilder) : UpdateBuilder :=
  mkUpdateBuilder (ub_tableName b) (ub_updates b) (ub_conditions b ++ conditions)%list.

Definition update_set_part (u : uExpr) : string :=
  "`" ++ FieldName (u_field u) ++ "`" ++ u_expr u ++ "?".

(** The WHERE loop of [UpdateBuilder.SQL]: [" AND "] before every
    condition but the first, no skipping of empty fragments. *)
Fixpoint update_where_loop (first : bool) (cs : list Expr) (sb : string)
    (params : list value) : Result rendered :=
  match cs with
  | [] => Ok (sb, params)
  | c :: cs' =>
      let sb1 := if first then sb else sb ++ " AND " in
      match render c with
      | Err e => Err (ErrWrap "failed to build where condition" e)
      | Ok (condSQL, condParams) =>
          update_where_loop false cs' (sb1 ++ condSQL) (params ++ condParams)%list
      end
  end.

(** [UpdateBuilder.SQL]. *)
Definition update_SQL (b : UpdateBuilder) : Result rendered :=
  if String.eqb (ub_tableName b) "" then Err (ErrMsg "table name is required")
  else match ub_updates b with
       | [] => Err (ErrMsg "at least one SET expression is required")
       | us =>
           let sb := "UPDATE `" ++ ub_tableName b ++ "` SET "
                       ++ join ", " (map update_set_part us) in
           let params := map u_value us in
           match ub_conditions b with
           | [] => Ok (sb, params)
           | cs => update_where_loop true cs (sb ++ " WHERE ") params
           end
       end.

(* ------------------------------------------------------------------ *)
(** ** DELETE builder *)

Record DeleteBuilder : Type := mkDeleteBuilder {
  db_tableName : string;
  db_conditions : list Expr;
  db_limit : option Z    (* [limit] together with [hasLimit] *)
}.

Definition DeleteFrom (tableName : string) : DeleteBuilder :=
  mkDeleteBuilder tableName [] None.

Definition delete_Where (conditions : list Expr) (b : DeleteBuilder) : DeleteBuilder :=
  mkDeleteBuilder (db_tableName b) (db_conditions b ++ conditions)%list (db_limit b).

(** The WHERE loop of [DeleteBuilder.SQL]: [" AND "] is written for every
    index [i > 0] before the condition is rendered; an empty fragment is
    skipped only after that. *)
Fixpoint delete_where_loop (first : bool) (cs : list Expr) (sb : string)
    (params : list value) : Result rendered :=
  match cs with
  | [] => Ok (sb, params)
  | c :: cs' =>
      let sb1 := if first then sb else sb ++ " AND " in
      match render c with
      | Err e => Err (ErrWrap "failed to build where condition" e)
      | Ok (condSQL, condParams) =>
          if String.eqb condSQL "" then delete_where_loop false cs' sb1 params
          else delete_where_loop false cs' (sb1 ++ condSQL) (params ++ condParams)%list
      end
  end.

(** [fmt.Sprintf("%d", n)]. *)
Definition Z_to_decimal (n : Z) : string :=
  NilEmpty.string_of_int (Z.to_int n).

(** [DeleteBuilder.SQL]. *)
Definition delete_SQL (b : DeleteBuilder) : Result rendered :=
  if String.eqb (db_tableName b) "" then Err (ErrMsg "table name is required")
  else
    let head := "DELETE FROM `" ++ db_tableName b ++ "`" in
    let limit := match db_limit b with
                 | Some n => " LIMIT " ++ Z_to_decimal n
                 | None => ""
                 end in
    match db_conditions b with
    | [] => Ok (head ++ limit, [])
    | cs =>
        bind_r (delete_where_loop true cs (head ++ " WHERE ") [])
          (fun '(s, params) => Ok (s ++ limit, params))
    end.

(* ------------------------------------------------------------------ *)
(** ** Field helpers: IN and LIKE *)

(** A Go call that either returns or panics. *)
Inductive Outcome (A : Type) : Type :=
| Returns (x : A)
| Panics (msg : string).
Arguments Returns {A} x.
Arguments Panics {A} msg.

(** [StringField.In]: panics on an empty value list. *)
Definition StringField_In (f : Field) (values : list string) : Outcome Expr :=
  match values with
  | [] => Panics "in requires non-empty values"
  | _ => Returns (EIn f (map VString values))
  end.

(** [StringField.InOrEmpty]. *)
Definition StringField_InOrEmpty (f : Field) (values : list string) : Outcome Expr :=
  match values with
  | [] => Returns ENoOp
  | _ => StringField_In f values
  end.

(** [Float64Field.In] ([panic(fmt.Errorf(...))]); values are bit patterns. *)
Definition Float64Field_In (f : Field) (values : list Z) : Outcome Expr :=
  match values with
  | [] => Panics "in requires at least one value"
  | _ => Returns (EIn f (map VFloat64 values))
  end.

(** [Float64Field.InOrEmpty]. *)
Definition Float64Field_InOrEmpty (f : Field) (values : list Z) : Outcome Expr :=
  match values with
  | [] => Returns ENoOp
  | _ => Float64Field_In f values
  end.

(** [StringField.Contains], [StartsWith] and [EndsWith]. *)
Definition Contains (f : Field) (value : string) : Expr :=
  if String.eqb value "" then ENoOp else ELike f ("%" ++ value ++ "%").

Definition StartsWith (f : Field) (value : string) : Expr :=
  if String.eqb value "" then ENoOp else ELike f (value ++ "%").

Definition EndsWith (f : Field) (value : string) : Expr :=
  if String.eqb value "" then ENoOp else ELike f ("%" ++ value).

(* ------------------------------------------------------------------ *)
(** ** Binding layer (package orm) *)

(** A table: its name and the fields registered on it, in order. *)
Record Table : Type := mkTable {
  tbl_name : string;
  tbl_fields : list Field
}.

(** [map[string]field.Field] built by ranging over [table.Fields()]: a later
    field of the same name overwrites an earlier one. *)
Definition table_lookup (fields : list Field) (name : string) : option Field :=
  fold_left (fun acc f => if String.eqb (FieldName f) name then Some f else acc)
    fields None.

(** Modelled from the spec: the sentinel errors [ErrNothingToUpdate] and
    [ErrMissingIDField] are used by the orm package but declared outside the
    sources; only their identity matters here, the messages are the spec's. *)
Definition ErrNothingToUpdate : error := ErrMsg "nothing to update".
Definition ErrMissingIDField : error := ErrMsg "table has no id field".

(** A call issued to the external engine. *)
Inductive call : Type :=
| CQuery (sql : string) (args : list value)
| CExec (sql : string) (args : list value).

(** What an ORM operation does: the engine calls it issued, then its
    result (or a panic). *)
Definition Eng (A : Type) : Type := Outcome (list call * Result A).

(** [ORM.toIDCondition]: the equality is built on an [Int64Field] with an
    empty [TableName], so it renders unqualified. *)
Definition toIDCondition (tbl : Table) (id : Z) : Result Expr :=
  if Z.eqb id 0 then Err (ErrMsg "requires id, got 0")
  else if existsb (fun f => String.eqb (FieldName f) "id") (tbl_fields tbl)
       then Ok (Int64_Eq (mkField "id" "" KInt64) id)
       else Err ErrMissingIDField.

(** The reflected value held by a field of the partial object. *)
Inductive GoValue : Type :=
| GString (s : string)
| GInt (z : Z)
| GInt64 (z : Z)
| GInt32 (z : Z)
| GFloat64 (bits : Z)
| GBool (b : bool)
| GTime (t : Z)
| GOther.            (* any other kind: not converted *)

(** A struct field of the partial object: a pointer (nil or not) or a
    plain value. *)
Inductive FieldSlot : Type :=
| SPtr (v : option GoValue)
| SDirect (v : GoValue).

Record PField : Type := mkPField {
  pf_Name : string;
  pf_exported : bool;
  pf_slot : FieldSlot
}.

(** The [switch fieldRValue.Kind()] of [ORM.update]. *)
Definition to_sql_value (v : GoValue) : option Expression :=
  match v with
  | GString s => Some (XLit (VString s))
  | GInt z | GInt64 z => Some (XLit (VInt64 z))
  | GInt32 z => Some (XLit (VInt32 z))
  | GFloat64 b => Some (XLit (VFloat64 b))
  | GBool b => Some (XLit (VBool b))
  | GTime t => Some (XLit (VTime t))
  | GOther => None
  end.

(** The local variables of [ORM.update]'s field loop. *)
Record UpdState : Type := mkUpdState {
  us_builder : UpdateBuilder;
  us_hasFieldsToUpdate : bool;
  us_shouldAddUpdateTime : bool;
  us_hasUpdateTimeField : bool;
  us_updateTimeField : option Field   (* None: the nil interface *)
}.

Section OrmUpdate.

(** [strcase.CamelToSnake], from a library outside the repository. *)
Variable camel_to_snake : string -> string.
(** [time.Now()]. *)
Variable now : Z.
(** The engine's [Exec]: the error it returns for a statement, if any. *)
Variable exec_err : string -> list value -> option error.

Definition is_nil_ptr (s : FieldSlot) : bool :=
  match s with SPtr None => true | _ => false end.

Definition slot_value (s : FieldSlot) : option GoValue :=
  match s with SPtr v => v | SDirect v => Some v end.

(** One iteration of the field loop of [ORM.update]. *)
Definition update_step (tbl : Table) (st : UpdState) (pf : PField) : UpdState :=
  if negb (pf_exported pf) then st
  else
    let st1 :=
      if String.eqb (pf_Name pf) "UpdateTime"
      then mkUpdState (us_builder st) (us_hasFieldsToUpdate st)
             (us_shouldAddUpdateTime st || is_nil_ptr (pf_slot pf)) true
             (table_lookup (tbl_fields tbl) (camel_to_snake (pf_Name pf)))
      else st in
    match slot_value (pf_slot pf) with
    | None => st1
    | Some v =>
        match table_lookup (tbl_fields tbl) (camel_to_snake (pf_Name pf)) with
        | None => st1
        | Some tableField =>
            match to_sql_value v with
            | None => st1
            | Some sqlValue =>
                mkUpdState (update_Set tableField sqlValue (us_builder st1)) true
                  (us_shouldAddUpdateTime st1) (us_hasUpdateTimeField st1)
                  (us_updateTimeField st1)
            end
        end
    end.

(** Renders the finished builder and issues the [Exec]. *)
Definition update_exec (b : UpdateBuilder) : Eng unit :=
  match update_SQL b with
  | Err e => Returns ([], Err (ErrWrap "failed to build update SQL" e))
  | Ok (query, args) =>
      Returns ([CExec query args],
               match exec_err query args with
               | Some e => Err (ErrWrap "failed to execute UpdateByID" e)
               | None => Ok tt
               end)
  end.

(** [ORM.update]. The partial object is [None] for a nil pointer. *)
Definition update (tbl : Table) (conditions : list Expr) (data : option (list PField))
    : Eng unit :=
  match data with
  | None => Returns ([], Err (ErrMsg "requires data, got nil"))
  | Some pfs =>
      match conditions with
      | [] => Returns ([], Err (ErrMsg "requires conditions"))
      | _ =>
          let st := fold_left (update_step tbl) pfs
                      (mkUpdState (Update (tbl_name tbl)) false false false None) in
          if negb (us_hasFieldsToUpdate st) then Returns ([], Err ErrNothingToUpdate)
          else if us_hasUpdateTimeField st && us_shouldAddUpdateTime st then
            match us_updateTimeField st with
            | Some f =>
                update_exec (update_Where conditions
                               (update_Set f (XLit (VTime now)) (us_builder st)))
            | None =>
                (* [builder.Set(nil, ...)]: [SQL()] calls [Name()] on the nil
                   field once the table-name check has passed *)
                if String.eqb (tbl_name tbl) ""
                then Returns ([], Err (ErrWrap "failed to build update SQL"
                                        (ErrMsg "table name is required")))
                else Panics "nil field"
            end
          else update_exec (update_Where conditions (us_builder st))
      end
  end.

(** [ORM.UpdateByID]. *)
Definition UpdateByID (tbl : Table) (id : Z) (data : option (list PField)) : Eng unit :=
  match toIDCondition tbl id with
  | Err e => Returns ([], Err (ErrWrap "failed to convert id to condition" e))
  | Ok c => update tbl [c] data
  end.

(** [ORM.deleteBy]. *)
Definition deleteBy (tbl : Table) (conditions : list Expr) : Eng unit :=
  match conditions with
  | [] => Returns ([], Err (ErrMsg "requires conditions"))
  | _ =>
      match delete_SQL (delete_Where conditions (DeleteFrom (tbl_name tbl))) with
      | Err e => Returns ([], Err (ErrWrap "sql" e))
      | Ok (query, args) =>
          Returns ([CExec query args],
                   match exec_err query args with
                   | Some e => Err (ErrWrap "failed to execute DeleteByID" e)
                   | None => Ok tt
                   end)
      end
  end.

(** [ORM.DeleteByID]. *)
Definition DeleteByID (tbl : Table) (id : Z) : Eng unit :=
  match toIDCondition tbl id with
  | Err e => Returns ([], Err (ErrWrap "failed to convert id to condition" e))
  | Ok c => deleteBy tbl [c]
  end.

End OrmUpdate.

(** [ORM.GetByID]. The fetch [o.get] (a SELECT through the engine) is
    taken as a parameter: everything stated about [GetByID] holds for any
    implementation of it. *)
Definition GetByID {A : Type} (get : list Expr -> Eng A) (tbl : Table) (id : Z) : Eng A :=
  match toIDCondition tbl id with
  | Err e => Returns ([], Err (ErrWrap "failed to convert id to condition" e))
  | Ok c => get [c]
  end.

(* ------------------------------------------------------------------ *)
(** ** Validation of the optional type ([validateOptionalType]) *)

(** The reflected types of struct fields. [TNamed] stands for any other
    named type, compared by name. *)
Inductive GoType : Type :=
| TInt | TInt64 | TInt32 | TFloat64 | TString | TBool
| TTime                      (* time.Time *)
| TPtr (elem : GoType)
| TNamed (name : string).

Definition GoType_eq_dec (a b : GoType) : {a = b} + {a <> b}.
Proof. decide equality. apply string_dec. Defined.

(** A [reflect.StructField]: its name, [IsExported()] and its type. *)
Record StructField : Type := mkStructField {
  sf_Name : string;
  sf_exported : bool;
  sf_Type : GoType
}.

(** The type argument [T] or [P]: a struct, or anything else. *)
Inductive RType : Type :=
| RStruct (fields : list StructField)
| RNonStruct (t : GoType).

Definition ErrNotPointerStruct : error :=
  ErrMsg "optional fields type must be a struct with pointer fields".
Definition ErrFieldMismatch : error :=
  ErrMsg "field mismatch between model and table".
Definition ErrFieldTypeMismatch : error :=
  ErrMsg "field type mismatch between model and table".

(** [modelFieldMap]: the exported fields of the model by name. *)
Definition model_lookup (fields : list StructField) (name : string) : option StructField :=
  fold_left (fun acc f =>
               if sf_exported f && String.eqb (sf_Name f) name then Some f else acc)
    fields None.

Definition is_time_name (name : string) : bool :=
  String.eqb name "CreateTime" || String.eqb name "UpdateTime".

(** The checks of one exported optional field, in the source's order. *)
Definition check_optional_field (modelFields : list StructField) (o : StructField)
    : option error :=
  let time_check :=
    if is_time_name (sf_Name o) then
      match sf_Type o with
      | TPtr el => if GoType_eq_dec el TTime then None
                   else Some (ErrDetail ErrFieldTypeMismatch "optional field must be a *time.Time")
      | _ => Some (ErrDetail ErrNotPointerStruct "optional field must be a pointer")
      end
    else None in
  match time_check with
  | Some e => Some e
  | None =>
      match model_lookup modelFields (sf_Name o) with
      | None => Some (ErrDetail ErrFieldMismatch "optional field not found in model")
      | Some modelField =>
          match sf_Type o with
          | TPtr el =>
              if GoType_eq_dec el (sf_Type modelField) then None
              else Some (ErrDetail ErrFieldTypeMismatch
                           "optional field pointer type doesn't match model field type")
          | _ => Some (ErrDetail ErrNotPointerStruct "optional field must be a pointer")
          end
      end
  end.

(** The loop over the fields of [P]: unexported fields are skipped, the
    first failing check returns. *)
Fixpoint check_optional_fields (modelFields : list StructField) (ofs : list StructField)
    : Result unit :=
  match ofs with
  | [] => Ok tt
  | o :: rest =>
      if negb (sf_exported o) then check_optional_fields modelFields rest
      else match check_optional_field modelFields o with
           | Some e => Err e
           | None => check_optional_fields modelFields rest
           end
  end.

(** [validateOptionalType[T, P]]: [modelType.NumField()] panics when [T]
    is not a struct. *)
Definition validateOptionalType (T P : RType) : Outcome (Result unit) :=
  match P with
  | RNonStruct _ => Returns (Err ErrNotPointerStruct)
  | RStruct ofs =>
      match T with
      | RNonStruct _ => Panics "reflect: NumField of non-struct type"
      | RStruct modelFields => Returns (check_optional_fields modelFields ofs)
      end
  end.

(* ------------------------------------------------------------------ *)
(** ** Rendering loops shared by the statement builders *)

(** [if err != nil { return ..., fmt.Errorf("msg: %w", err) }]. *)
Definition wrap_err {A} (msg : string) (r : Result A) : Result A :=
  match r with Ok x => Ok x | Err e => Err (ErrWrap msg e) end.

(** A loop that renders every element in order, stops at the first error
    and collects the fragments and the arguments. *)
Fixpoint collect_loop (rs : list (Result rendered)) (parts : list string)
    (params : list value) : Result (list string * list value) :=
  match rs with
  | [] => Ok (parts, params)
  | Err e :: _ => Err e
  | Ok (s, p) :: rs' => collect_loop rs' (parts ++ [s])%list (params ++ p)%list
  end.

(** [Func(name, args...)] and [Not(conditions...)] of package sql. *)
Definition Func (name : string) (args : list Expr) : Expr := EFunc name args.
Definition Not (conditions : list Expr) : Expr := ENot conditions.

(** [DeleteBuilder.Limit]. *)
Definition delete_Limit (limit : Z) (b : DeleteBuilder) : DeleteBuilder :=
  mkDeleteBuilder (db_tableName b) (db_conditions b) (Some limit).

(* ------------------------------------------------------------------ *)
(** ** SELECT builder ([sql.SelectBuilder], the [expr.Expr] version) *)

Record sjoin : Type := mkJoin {
  j_tableName : string;
  j_condition : Expr;
  j_joinType : string
}.

(** [limit]/[hasLimit] and [offset]/[hasOffset] are options. The
    [field.Field] lists (excluded and GROUP BY fields) are kept as the
    expressions they render as: [SQL()] only calls their [ToSQL]. *)
Record SelectBuilder : Type := mkSelectBuilder {
  sb_fields : list Expr;
  sb_tableName : string;
  sb_joins : list sjoin;
  sb_conditions : list Expr;
  sb_excludeFields : list Expr;
  sb_groupBys : list Expr;
  sb_havings : list Expr;
  sb_orderBys : list Expr;
  sb_limit : option Z;
  sb_offset : option Z
}.

Definition Select (fields : list Expr) : SelectBuilder :=
  mkSelectBuilder fields "" [] [] [] [] [] [] None None.

Definition select_From (tableName : string) (b : SelectBuilder) : SelectBuilder :=
  mkSelectBuilder (sb_fields b) tableName (sb_joins b) (sb_conditions b)
    (sb_excludeFields b) (sb_groupBys b) (sb_havings b) (sb_orderBys b)
    (sb_limit b) (sb_offset b).

Definition select_Where (conditions : list Expr) (b : SelectBuilder) : SelectBuilder :=
  mkSelectBuilder (sb_fields b) (sb_tableName b) (sb_joins b)
    (sb_conditions b ++ conditions)%list
    (sb_excludeFields b) (sb_groupBys b) (sb_havings b) (sb_orderBys b)
    (sb_limit b) (sb_offset b).

Definition select_Exclude (fields : list Expr) (b : SelectBuilder) : SelectBuilder :=
  mkSelectBuilder (sb_fields b) (sb_tableName b) (sb_joins b) (sb_conditions b)
    (sb_excludeFields b ++ fields)%list (sb_groupBys b) (sb_havings b) (sb_orderBys b)
    (sb_limit b) (sb_offset b).

(** [Join] and [LeftJoin]. *)
Definition select_join (joinType tableName : string) (condition : Expr) (b : SelectBuilder)
    : SelectBuilder :=
  mkSelectBuilder (sb_fields b) (sb_tableName b)
    (sb_joins b ++ [mkJoin tableName condition joinType])%list (sb_conditions b)
    (sb_excludeFields b) (sb_groupBys b) (sb_havings b) (sb_orderBys b)
    (sb_limit b) (sb_offset b).

Definition select_Join := select_join "JOIN".
Definition select_LeftJoin := select_join "LEFT JOIN".

Definition select_GroupBy (fields : list Expr) (b : SelectBuilder) : SelectBuilder :=
  mkSelectBuilder (sb_fields b) (sb_tableName b) (sb_joins b) (sb_conditions b)
    (sb_excludeFields b) (sb_groupBys b ++ fields)%list (sb_havings b) (sb_orderBys b)
    (sb_limit b) (sb_offset b).

Definition select_Having (conditions : list Expr) (b : SelectBuilder) : SelectBuilder :=
  mkSelectBuilder (sb_fields b) (sb_tableName b) (sb_joins b) (sb_conditions b)
    (sb_excludeFields b) (sb_groupBys b) (sb_havings b ++ conditions)%list (sb_orderBys b)
    (sb_limit b) (sb_offset b).

Definition select_OrderBy (orderFields : list Expr) (b : SelectBuilder) : SelectBuilder :=
  mkSelectBuilder (sb_fields b) (sb_tableName b) (sb_joins b) (sb_conditions b)
    (sb_excludeFields b) (sb_groupBys b) (sb_havings b) (sb_orderBys b ++ orderFields)%list
    (sb_limit b) (sb_offset b).

Definition select_Limit (limit : Z) (b : SelectBuilder) : SelectBuilder :=
  mkSelectBuilder (sb_fields b) (sb_tableName b) (sb_joins b) (sb_conditions b)
    (sb_excludeFields b) (sb_groupBys b) (sb_havings b) (sb_orderBys b)
    (Some limit) (sb_offset b).

Definition select_Offset (offset : Z) (b : SelectBuilder) : SelectBuilder :=
  mkSelectBuilder (sb_fields b) (sb_tableName b) (sb_joins b) (sb_conditions b)
    (sb_excludeFields b) (sb_groupBys b) (sb_havings b) (sb_orderBys b)
    (sb_limit b) (Some offset).

(** [stringsContains(list, item)]. *)
Definition stringsContains (l : list string) (item : string) : bool :=
  existsb (fun v => String.eqb v item) l.

(** The select list: a field whose fragment is an excluded name is skipped;
    the others are written with [", "] between them. *)
Fixpoint select_fields_loop (excludedNames : list string) (rs : list (Result rendered))
    (parts : list string) (params : list value) : Result (list string * list value) :=
  match rs with
  | [] => Ok (parts, params)
  | Err e :: _ => Err (ErrWrap "failed to build select field" e)
  | Ok (s, p) :: rs' =>
      if stringsContains excludedNames s
      then select_fields_loop excludedNames rs' parts params
      else select_fields_loop excludedNames rs' (parts ++ [s])%list (params ++ p)%list
  end.

(** The JOIN clauses: the [ON] is written before the condition is rendered;
    an empty condition is skipped after that. *)
Fixpoint select_joins_loop (js : list sjoin) (sb : string) (params : list value)
    : Result rendered :=
  match js with
  | [] => Ok (sb, params)
  | j :: js' =>
      let sb1 := sb ++ " " ++ j_joinType j ++ " `" ++ j_tableName j ++ "` ON " in
      match render (j_condition j) with
      | Err e => Err (ErrWrap "failed to build join condition" e)
      | Ok (joinSQL, joinParams) =>
          if String.eqb joinSQL "" then select_joins_loop js' sb1 params
          else select_joins_loop js' (sb1 ++ joinSQL) (params ++ joinParams)%list
      end
  end.

(** WHERE and HAVING: empty fragments are skipped, the others joined with
    [" AND "]; the keyword is written only when one is left. *)
Definition select_filter_clause (keyword msg : string) (cs : list Expr) : Result rendered :=
  match cs with
  | [] => Ok ("", [])
  | _ =>
      match join_loop (map render cs) [] [] with
      | Err e => Err (ErrWrap msg e)
      | Ok ([], params) => Ok ("", params)
      | Ok (clauses, params) => Ok (keyword ++ join " AND " clauses, params)
      end
  end.

(** GROUP BY and ORDER BY: every fragment, with [", "] between them. *)
Definition select_list_clause (keyword msg : string) (es : list Expr) : Result rendered :=
  match es with
  | [] => Ok ("", [])
  | _ =>
      match collect_loop (map render es) [] [] with
      | Err e => Err (ErrWrap msg e)
      | Ok (parts, params) => Ok (keyword ++ join ", " parts, params)
      end
  end.

(** The LIMIT/OFFSET suffix: both give MySQL's short form [LIMIT o,l]. *)
Definition limit_offset_clause (limit offset : option Z) : string :=
  match limit, offset with
  | Some l, Some o => " LIMIT " ++ Z_to_decimal o ++ "," ++ Z_to_decimal l
  | Some l, None => " LIMIT " ++ Z_to_decimal l
  | None, Some o => " OFFSET " ++ Z_to_decimal o
  | None, None => ""
  end.

(** [SelectBuilder.SQL]: the clauses are built in the source's order, so
    the first failing clause gives the error. *)
Definition select_SQL (b : SelectBuilder) : Result rendered :=
  if String.eqb (sb_tableName b) "" then Err (ErrMsg "from table is required")
  else
    match sb_fields b, sb_excludeFields b with
    | [], _ :: _ => Err (ErrMsg "exclude fields without selected fields")
    | _, _ =>
      bind_r (wrap_err "failed to build exclude field"
                (collect_loop (map render (sb_excludeFields b)) [] []))
        (fun '(excludedNames, _) =>
      bind_r (select_fields_loop excludedNames (map render (sb_fields b)) [] [])
        (fun '(fieldParts, fieldParams) =>
      bind_r (select_joins_loop (sb_joins b) "" [])
        (fun '(joinSQL, joinParams) =>
      bind_r (select_filter_clause " WHERE " "failed to build where condition"
                (sb_conditions b))
        (fun '(whereSQL, whereParams) =>
      bind_r (select_list_clause " GROUP BY " "failed to build group by condition"
                (sb_groupBys b))
        (fun '(groupSQL, groupParams) =>
      bind_r (select_filter_clause " HAVING " "failed to build having condition"
                (sb_havings b))
        (fun '(havingSQL, havingParams) =>
      bind_r (select_list_clause " ORDER BY " "failed to build order by condition"
                (sb_orderBys b))
        (fun '(orderSQL, orderParams) =>
      Ok ("SELECT " ++ join ", " fieldParts ++ " FROM `" ++ sb_tableName b ++ "`"
            ++ joinSQL ++ whereSQL ++ groupSQL ++ havingSQL ++ orderSQL
            ++ limit_offset_clause (sb_limit b) (sb_offset b),
          (fieldParams ++ joinParams ++ whereParams ++ groupParams
             ++ havingParams ++ orderParams)%list))))))))
    end.

(* ------------------------------------------------------------------ *)
(** ** INSERT INTO builder of [sql/insert_into.go] (SET values are
    [field.Expression]s) *)

Module InsertIntoExpression.

Record updateExpr : Type := mkUpdateExpr {
  xu_field : Field;
  xu_expr : string;
  xu_value : value
}.

Record InsertIntoBuilder : Type := mkInsertIntoBuilder {
  xb_tableName : string;
  xb_updates : list updateExpr
}.

Definition InsertInto (tableName : string) : InsertIntoBuilder :=
  mkInsertIntoBuilder tableName [].

(** [InsertIntoBuilder.Set]. *)
Definition insert_Set (f : Field) (x : Expression) (b : InsertIntoBuilder)
    : InsertIntoBuilder :=
  let '(exprSQL, exprValue) := ToExpressionSQL x in
  mkInsertIntoBuilder (xb_tableName b) (xb_updates b ++ [mkUpdateExpr f exprSQL exprValue])%list.

(** One SET entry: ["=?"] for an empty expression, ["=" + expr] otherwise. *)
Definition set_part (u : updateExpr) : string :=
  "`" ++ FieldName (xu_field u) ++ "`"
    ++ (if String.eqb (xu_expr u) "" then "=?" else "=" ++ xu_expr u).

(** [InsertIntoBuilder.SQL]. *)
Definition insert_SQL (b : InsertIntoBuilder) : Result rendered :=
  if String.eqb (xb_tableName b) "" then Err (ErrMsg "table name is required")
  else match xb_updates b with
       | [] => Err (ErrMsg "no columns specified")
       | us => Ok ("INSERT INTO `" ++ xb_tableName b ++ "` SET "
                     ++ join ", " (map set_part us), map xu_value us)
       end.

End InsertIntoExpression.

(* ------------------------------------------------------------------ *)
(** ** Queries, conditions and inserts of the binding layer *)

(** A field of a condition object [*P] as [ToConditions] sees it. *)
Record CField : Type := mkCField {
  cf_Name : string;
  cf_Anonymous : bool;
  cf_exported : bool;
  cf_slot : FieldSlot
}.

(** The condition object: a struct, or a value of another kind. *)
Inductive CondObj : Type :=
| CStruct (fields : list CField)
| CNonStruct.

(** The value of a field of the model [*T] as [ORM.Insert] sees it, by
    its [Kind()]. *)
Inductive InsValue : Type :=
| IString (s : string)
| IInt (z : Z)          (* int, int8, int16, int32, int64: [field.Int()] *)
| IUint (n : Z)         (* uint, ..., uint64: [field.Uint()] *)
| IFloat (bits : Z)     (* float32, float64: [field.Float()] as a float64 *)
| IBool (b : bool)
| ITime (t : Z)         (* a struct whose type is time.Time *)
| IOther (ty : string). (* any other kind or struct type; [field.Type()] *)

Record IField : Type := mkIField {
  if_Name : string;
  if_exported : bool;
  if_value : InsValue
}.

(** [int64(u)] of a [uint64]: two's-complement wrap-around. *)
Definition uint64_to_int64 (n : Z) : Z :=
  if Z.leb (2 ^ 63) n then n - 2 ^ 64 else n.

Section OrmQuery.

(** A row of a result ([*T]). *)
Variable Row : Type.
(** The engine's [Query]: the rows it returns for a statement, or its error. *)
Variable query_res : string -> list value -> Result (list Row).
(** [strcase.CamelToSnake]. *)
Variable camel_to_snake : string -> string.
(** [condV.Interface()]: a field's value boxed as an argument. *)
Variable iface : GoValue -> value.
(** [time.Now()]. *)
Variable now : Z.
(** [time.Time.IsZero]. *)
Variable IsZero : Z -> bool.
(** The engine's [Exec] and [ExecInsert]. *)
Variable exec_err : string -> list value -> option error.
Variable exec_insert : string -> list value -> Result Z.

(** [ORM.QuerySQL]. *)
Definition QuerySQL (query : string) (args : list value) : Eng (list Row) :=
  Returns ([CQuery query args], wrap_err "failed to execute query" (query_res query args)).

(** [fieldsToExprs]. *)
Definition fieldsToExprs (fields : list Field) : list Expr := map EField fields.

(** [ORM.SelectAll]. *)
Definition SelectAll (tbl : Table) : SelectBuilder :=
  select_From (tbl_name tbl) (Select (fieldsToExprs (tbl_fields tbl))).

(** [ORM.get]. *)
Definition get (tbl : Table) (conditions : list Expr) : Eng Row :=
  match select_SQL (select_Limit 1 (select_Where conditions
          (select_From (tbl_name tbl) (Select (fieldsToExprs (tbl_fields tbl)))))) with
  | Err e => Returns ([], Err (ErrWrap "sql" e))
  | Ok (querySQL, args) =>
      Returns ([CQuery querySQL args],
               match query_res querySQL args with
               | Err e => Err (ErrWrap "failed to execute Get" e)
               | Ok [] => Err (ErrMsg "data not found")
               | Ok (r :: _) => Ok r
               end)
  end.

(** [ORMSelectBuilder.Query]. *)
Definition orm_select_Query (b : SelectBuilder) : Eng (list Row) :=
  match select_SQL b with
  | Err e => Returns ([], Err e)
  | Ok (q, args) => QuerySQL q args
  end.

(** [ORMSelectBuilder.QueryOne]: [c.builder.Limit(1)] changes the builder
    the [ORMSelectBuilder] holds, which is returned beside the outcome. *)
Definition QueryOne (b : SelectBuilder) : SelectBuilder * Eng (option Row) :=
  let b' := select_Limit 1 b in
  (b', match select_SQL b' with
       | Err e => Returns ([], Err e)
       | Ok (q, args) =>
           match QuerySQL q args with
           | Returns (cs, Err e) => Returns (cs, Err e)
           | Returns (cs, Ok []) => Returns (cs, Ok None)
           | Returns (cs, Ok (r :: _)) => Returns (cs, Ok (Some r))
           | Panics m => Panics m
           end
       end).

(** [ORMSelectBuilder.RequireOne]. *)
Definition RequireOne (b : SelectBuilder) : SelectBuilder * Eng Row :=
  let '(b', o) := QueryOne b in
  (b', match o with
       | Returns (cs, Err e) => Returns (cs, Err e)
       | Returns (cs, Ok None) => Returns (cs, Err (ErrMsg "record not found"))
       | Returns (cs, Ok (Some r)) => Returns (cs, Ok r)
       | Panics m => Panics m
       end).

(** The field loop of [ORM.ToConditions]: embedded fields and nil pointers
    are skipped; [Interface()] panics on a field that is not exported. *)
Fixpoint to_conditions_loop (fs : list CField) (acc : list Expr) : Outcome (list Expr) :=
  match fs with
  | [] => Returns acc
  | f :: fs' =>
      if cf_Anonymous f then to_conditions_loop fs' acc
      else match slot_value (cf_slot f) with
           | None => to_conditions_loop fs' acc
           | Some v =>
               if negb (cf_exported f)
               then Panics "reflect.Value.Interface: cannot return value obtained from unexported field or method"
               else
                 let cond := ECustom (Ok ("`" ++ camel_to_snake (cf_Name f) ++ "` = ?",
                                          [iface v])) in
                 to_conditions_loop fs' (acc ++ [cond])%list
           end
  end.

(** [ORM.ToConditions]. The condition is [None] for a nil pointer. *)
Definition ToConditions (condition : option CondObj) : Outcome (Result (list Expr)) :=
  match condition with
  | None => Returns (Err (ErrMsg "requires condition"))
  | Some CNonStruct => Returns (Err (ErrMsg "condition must be a struct"))
  | Some (CStruct fs) =>
      match to_conditions_loop fs [] with
      | Returns cs => Returns (Ok cs)
      | Panics m => Panics m
      end
  end.

(** The conversion of a [*P] condition shared by [GetBy], [DeleteBy] and
    [UpdateBy]. *)
Definition with_conditions {A} (condition : option CondObj) (k : list Expr -> Eng A) : Eng A :=
  match condition with
  | None => Returns ([], Err (ErrMsg "requires condition"))
  | Some _ =>
      match ToConditions condition with
      | Panics m => Panics m
      | Returns (Err e) =>
          Returns ([], Err (ErrWrap "failed to convert condition to SQL conditions" e))
      | Returns (Ok cs) => k cs
      end
  end.

(** [ORM.GetBy]. *)
Definition GetBy (tbl : Table) (condition : option CondObj) : Eng Row :=
  with_conditions condition (get tbl).

(** [ORM.DeleteBy]. *)
Definition DeleteBy (tbl : Table) (condition : option CondObj) : Eng unit :=
  with_conditions condition (deleteBy exec_err tbl).

(** [ORM.DeleteWhere]. *)
Definition DeleteWhere (tbl : Table) (conditions : list Expr) : Eng unit :=
  match conditions with
  | [] => Returns ([], Err (ErrMsg "requires conditions"))
  | _ => deleteBy exec_err tbl conditions
  end.

(** [ORM.UpdateBy]. *)
Definition UpdateBy (tbl : Table) (condition : option CondObj) (data : option (list PField))
    : Eng unit :=
  with_conditions condition (fun cs => update camel_to_snake now exec_err tbl cs data).

(** The [switch field.Kind()] of [ORM.Insert]; a zero CreateTime or
    UpdateTime is replaced by the current time. *)
Definition insert_value (name : string) (v : InsValue) : option Expression :=
  match v with
  | IString s => Some (XLit (VString s))
  | IInt z => Some (XLit (VInt64 z))
  | IUint n => Some (XLit (VInt64 (uint64_to_int64 n)))
  | IFloat b => Some (XLit (VFloat64 b))
  | IBool b => Some (XLit (VBool b))
  | ITime t =>
      if (String.eqb name "CreateTime" || String.eqb name "UpdateTime") && IsZero t
      then Some (XLit (VTime now)) else Some (XLit (VTime t))
  | IOther _ => None
  end.

(** [field.Type()] as the conversion error prints it. *)
Definition ins_type_name (v : InsValue) : string :=
  match v with IOther ty => ty | _ => "" end.

(** The field loop of [ORM.Insert]: the first field without a column or
    without a conversion returns its error. *)
Fixpoint insert_fields_loop (tbl : Table) (fs : list IField)
    (b : InsertIntoExpression.InsertIntoBuilder)
    : Result InsertIntoExpression.InsertIntoBuilder :=
  match fs with
  | [] => Ok b
  | f :: fs' =>
      if negb (if_exported f) then insert_fields_loop tbl fs' b
      else if String.eqb (if_Name f) "Count" then insert_fields_loop tbl fs' b
      else
        let fieldName := camel_to_snake (if_Name f) in
        match table_lookup (tbl_fields tbl) fieldName with
        | None => Err (ErrMsg ("field " ++ fieldName ++ " not found in table " ++ tbl_name tbl))
        | Some tableField =>
            match insert_value (if_Name f) (if_value f) with
            | None => Err (ErrMsg ("failed to convert field " ++ if_Name f
                                     ++ " to SQL value: " ++ ins_type_name (if_value f)))
            | Some sqlValue =>
                insert_fields_loop tbl fs' (InsertIntoExpression.insert_Set tableField sqlValue b)
            end
        end
  end.

(** [ORM.Insert]: the [ExecInsert] calls it issued, then the new id or the
    error. The model is [None] for a nil pointer. Its [builder.Set] takes
    the [ToExpressionSQL] values, the builder of [sql/insert_into.go]. *)
Definition Insert (tbl : Table) (model : option (list IField))
    : Outcome (list (string * list value) * Result Z) :=
  match model with
  | None => Returns ([], Err (ErrMsg "model cannot be nil"))
  | Some fs =>
      match insert_fields_loop tbl fs (InsertIntoExpression.InsertInto (tbl_name tbl)) with
      | Err e => Returns ([], Err e)
      | Ok b =>
          match InsertIntoExpression.insert_SQL b with
          | Err e => Returns ([], Err (ErrWrap "failed to build insert SQL" e))
          | Ok (query, args) =>
              Returns ([(query, args)],
                       wrap_err "failed to execute Insert" (exec_insert query args))
          end
      end
  end.

End OrmQuery.

(* ------------------------------------------------------------------ *)
(** ** Field naming ([hasConsecutiveUppercase], [toStrictCamelCase],
    [validateFieldNaming]) *)

(** Strings are byte strings. Ranging over a Go string gives runes, but
    every byte of a multi-byte UTF-8 rune is >= 0x80, outside ['A'..'Z']
    and ['a'..'z'], exactly as the rune is: on valid UTF-8 (every Go
    identifier) the results agree. *)
Definition rune_is_upper (r : ascii) : bool :=
  (65 <=? nat_of_ascii r)%nat && (nat_of_ascii r <=? 90)%nat.
Definition rune_is_lower (r : ascii) : bool :=
  (97 <=? nat_of_ascii r)%nat && (nat_of_ascii r <=? 122)%nat.

Fixpoint consecutive_upper_loop (prevUpper : bool) (s : string) : bool :=
  match s with
  | EmptyString => false
  | String r s' =>
      let isUpper := rune_is_upper r in
      if isUpper && prevUpper then true else consecutive_upper_loop isUpper s'
  end.

Definition hasConsecutiveUppercase (s : string) : bool := consecutive_upper_loop false s.

(** The loop of [toStrictCamelCase]; [prev] is [runes[i-1]] (the original
    rune), the head of [rest] is [runes[i+1]]. *)
Fixpoint strict_camel_loop (prev : option ascii) (s : string) : string :=
  match s with
  | EmptyString => EmptyString
  | String r rest =>
      let isUpper := rune_is_upper r in
      let lower :=
        match prev with
        | Some p =>
            isUpper && rune_is_upper p
            && negb (match rest with
                     | String n _ => rune_is_lower n
                     | EmptyString => false
                     end)
        | None => false
        end in
      String (if lower then ascii_of_nat (nat_of_ascii r + 32) else r)
        (strict_camel_loop (Some r) rest)
  end.

Definition toStrictCamelCase (s : string) : string :=
  if String.eqb s "" then s else strict_camel_loop None s.

Definition ErrInvalidFieldNaming : error :=
  ErrMsg "field name must be strict CamelCase (no consecutive uppercase letters)".

(** [validateFieldNaming]: [None] for [nil]. *)
Definition validateFieldNaming (fieldName : string) : option error :=
  if hasConsecutiveUppercase fieldName
  then Some (ErrDetail ErrInvalidFieldNaming
               ("field '" ++ fieldName ++ "' has consecutive uppercase letters, use '"
                  ++ toStrictCamelCase fieldName ++ "' instead"))
  else None.

(* ================================================================== *)
(** * Properties *)

(** Concrete fields used by the examples: table [t] with int64 columns
    [age] and [id]. *)
Definition t_age : Field := mkField "age" "t" KInt64.
Definition t_id : Field := mkField "id" "t" KInt64.

Example field_sql_qualified : field_sql t_id = "`t`.`id`".
Proof. reflexivity. Qed.

Example field_sql_unqualified : field_sql (mkField "id" "" KInt64) = "`id`".
Proof. reflexivity. Qed.

Example comparison_renders : render (Int64_Eq t_id 7) = Ok ("`t`.`id` = ?", [VInt64 7]).
Proof. reflexivity. Qed.

(** C7: [Update(t).Set(age, age.Increment(1)).Where(id.Eq(1))] renders
    ["UPDATE `t` SET `age`=`t`.`age`+? WHERE `t`.`id` = ?"] with the
    arguments [[1, 1]], the increment delta first. *)
Theorem update_increment_renders :
  update_SQL (update_Where [Int64_Eq t_id 1]
                (update_Set t_age (Increment t_age 1) (Update "t")))
  = Ok ("UPDATE `t` SET `age`=`t`.`age`+? WHERE `t`.`id` = ?", [VInt64 1; VInt64 1]).
Proof. reflexivity. Qed.

Lemma eqb_nonempty (c : ascii) (s : string) : String.eqb (String c s) "" = false.
Proof. reflexivity. Qed.

(** C9: [Contains], [StartsWith] and [EndsWith] on the empty string give a
    no-op (empty fragment, no arguments); on a non-empty value they render
    ["<field> LIKE ?"] with the value wrapped in [%v%], [v%] or [%v]. *)
Theorem like_helpers_noop_on_empty :
  forall f : Field,
    (Contains f "" = ENoOp /\ StartsWith f "" = ENoOp /\ EndsWith f "" = ENoOp
     /\ render ENoOp = Ok ("", []))
    /\ (forall (c : ascii) (s : string),
          let v := String c s in
          render (Contains f v) = Ok (field_sql f ++ " LIKE ?", [VString ("%" ++ v ++ "%")])
          /\ render (StartsWith f v) = Ok (field_sql f ++ " LIKE ?", [VString (v ++ "%")])
          /\ render (EndsWith f v) = Ok (field_sql f ++ " LIKE ?", [VString ("%" ++ v)])).
Proof.
  intros f. split.
  - repeat split.
  - intros c s v. unfold Contains, StartsWith, EndsWith, v.
    rewrite eqb_nonempty. repeat split.
Qed.

(** The IN fragment of [n] values. *)
Lemma in_placeholders {A} (vs : list A) :
  map (fun _ => "?") vs = repeat "?" (length vs).
Proof. induction vs as [|v vs IH]; simpl; [reflexivity | now rewrite IH]. Qed.

(** C8: [In] renders ["<field> IN (?, ?, …)"] with one placeholder and one
    argument per value; with no value the strict [In] panics and
    [InOrEmpty] returns a no-op (string and float64 fields alike). *)
Theorem in_strict_and_or_empty :
  forall f : Field,
    (StringField_In f [] = Panics "in requires non-empty values"
     /\ StringField_InOrEmpty f [] = Returns ENoOp
     /\ Float64Field_In f [] = Panics "in requires at least one value"
     /\ Float64Field_InOrEmpty f [] = Returns ENoOp
     /\ render ENoOp = Ok ("", []))
    /\ (forall (v : string) (vs : list string),
          exists e, StringField_In f (v :: vs) = Returns e
          /\ StringField_InOrEmpty f (v :: vs) = Returns e
          /\ render e = Ok (field_sql f ++ " IN ("
                              ++ join ", " (repeat "?" (length (v :: vs))) ++ ")",
                            map VString (v :: vs)))
    /\ (forall (v : Z) (vs : list Z),
          exists e, Float64Field_In f (v :: vs) = Returns e
          /\ Float64Field_InOrEmpty f (v :: vs) = Returns e
          /\ render e = Ok (field_sql f ++ " IN ("
                              ++ join ", " (repeat "?" (length (v :: vs))) ++ ")",
                            map VFloat64 (v :: vs))).
Proof.
  intros f. split; [repeat split|split].
  - intros v vs. eexists. split; [reflexivity|split; [reflexivity|]].
    cbn [render]. rewrite in_placeholders, length_map. reflexivity.
  - intros v vs. eexists. split; [reflexivity|split; [reflexivity|]].
    cbn [render]. rewrite in_placeholders, length_map. reflexivity.
Qed.

(** ** The placeholder invariant outside the math operators *)

(** A rendering result keeps the invariant: as many [?] as arguments. *)
Definition balanced (r : Result rendered) : Prop :=
  match r with
  | Ok (s, ps) => count_qmarks s = length ps
  | Err _ => True
  end.

Definition noq (s : string) : bool := Nat.eqb (count_qmarks s) 0.

Definition field_noq (f : Field) : bool := noq (FieldName f) && noq (TableName f).

(** Expressions without [add/sub/mul/div] chains whose names, operators and
    aliases hold no [?] and whose foreign parts keep the invariant. *)
Fixpoint math_free (e : Expr) : bool :=
  match e with
  | EField f | ELike f _ | EIn f _ | ENull f _ | EBetween f _ _ => field_noq f
  | ELit _ | ENoOp => true
  | EComparison f op _ | EFieldOp f op _ => field_noq f && noq op
  | EFieldComparison l op r => math_free l && noq op && math_free r
  | EBetweenExpr f a b => field_noq f && math_free a && math_free b
  | EOr cs | EAnd cs | ENot cs => forallb math_free cs
  | EParen e1 | EOrder e1 _ => math_free e1
  | EMath _ _ => false
  | EFunc name args => noq name && forallb math_free args
  | EAlias e1 alias => math_free e1 && noq alias
  | ECustom r =>
      match r with
      | Ok (s, ps) => Nat.eqb (count_qmarks s) (length ps)
      | Err _ => true
      end
  end.

(** Induction over expressions with the hypothesis on every element of the
    nested lists. *)
Section ExprInd.
Variable P : Expr -> Prop.
Hypothesis HField : forall f, P (EField f).
Hypothesis HLit : forall v, P (ELit v).
Hypothesis HComparison : forall f op v, P (EComparison f op v).
Hypothesis HLike : forall f v, P (ELike f v).
Hypothesis HIn : forall f vs, P (EIn f vs).
Hypothesis HFieldComparison : forall l op r, P l -> P r -> P (EFieldComparison l op r).
Hypothesis HNull : forall f b, P (ENull f b).
Hypothesis HBetween : forall f a b, P (EBetween f a b).
Hypothesis HBetweenExpr : forall f a b, P a -> P b -> P (EBetweenExpr f a b).
Hypothesis HOr : forall cs, Forall P cs -> P (EOr cs).
Hypothesis HAnd : forall cs, Forall P cs -> P (EAnd cs).
Hypothesis HParen : forall e, P e -> P (EParen e).
Hypothesis HMath : forall es op, Forall P es -> P (EMath es op).
Hypothesis HNoOp : P ENoOp.
Hypothesis HFieldOp : forall f op v, P (EFieldOp f op v).
Hypothesis HFunc : forall name args, Forall P args -> P (EFunc name args).
Hypothesis HAlias : forall e a, P e -> P (EAlias e a).
Hypothesis HOrder : forall e d, P e -> P (EOrder e d).
Hypothesis HNot : forall cs, Forall P cs -> P (ENot cs).
Hypothesis HCustom : forall r, P (ECustom r).

Fixpoint Expr_deep_ind (e : Expr) : P e :=
  let fix all (cs : list Expr) : Forall P cs :=
    match cs with
    | [] => Forall_nil P
    | c :: cs' => Forall_cons c (Expr_deep_ind c) (all cs')
    end in
  match e with
  | EField f => HField f
  | ELit v => HLit v
  | EComparison f op v => HComparison f op v
  | ELike f v => HLike f v
  | EIn f vs => HIn f vs
  | EFieldComparison l op r => HFieldComparison l op r (Expr_deep_ind l) (Expr_deep_ind r)
  | ENull f b => HNull f b
  | EBetween f a b => HBetween f a b
  | EBetweenExpr f a b => HBetweenExpr f a b (Expr_deep_ind a) (Expr_deep_ind b)
  | EOr cs => HOr cs (all cs)
  | EAnd cs => HAnd cs (all cs)
  | EParen e1 => HParen e1 (Expr_deep_ind e1)
  | EMath es op => HMath es op (all es)
  | ENoOp => HNoOp
  | EFieldOp f op v => HFieldOp f op v
  | EFunc name args => HFunc name args (all args)
  | EAlias e1 a => HAlias e1 a (Expr_deep_ind e1)
  | EOrder e1 d => HOrder e1 d (Expr_deep_ind e1)
  | ENot cs => HNot cs (all cs)
  | ECustom r => HCustom r
  end.
End ExprInd.

Lemma count_qmarks_app (s1 s2 : string) :
  count_qmarks (s1 ++ s2) = count_qmarks s1 + count_qmarks s2.
Proof. induction s1 as [|c s1 IH]; simpl; [reflexivity|rewrite IH; lia]. Qed.

Definition sum_qmarks (parts : list string) : nat :=
  fold_right (fun p n => count_qmarks p + n) 0 parts.

Lemma sum_qmarks_app (l1 l2 : list string) :
  sum_qmarks (l1 ++ l2) = sum_qmarks l1 + sum_qmarks l2.
Proof. induction l1 as [|p l1 IH]; simpl; [reflexivity|rewrite IH; lia]. Qed.

Lemma count_qmarks_join (sep : string) (parts : list string) :
  count_qmarks sep = 0 -> count_qmarks (join sep parts) = sum_qmarks parts.
Proof.
  intros Hsep. induction parts as [|p [|q ps] IH]; simpl in *; try lia.
  rewrite !count_qmarks_app, Hsep. simpl in IH. rewrite IH. lia.
Qed.

Lemma field_sql_noq (f : Field) : field_noq f = true -> count_qmarks (field_sql f) = 0.
Proof.
  unfold field_noq, noq. intros H. apply andb_true_iff in H as [H1 H2].
  apply Nat.eqb_eq in H1, H2.
  unfold field_sql. destruct (Kind f);
    try destruct (String.eqb (TableName f) "");
    rewrite ?count_qmarks_app; simpl; rewrite ?count_qmarks_app; simpl; lia.
Qed.

Lemma join_loop_balanced (rs : list (Result rendered)) (parts : list string)
    (params : list value) :
  Forall balanced rs -> sum_qmarks parts = length params ->
  match join_loop rs parts params with
  | Ok (parts', params') => sum_qmarks parts' = length params'
  | Err _ => True
  end.
Proof.
  revert parts params.
  induction rs as [|r rs IH]; intros parts params Hall Hp; simpl; [exact Hp|].
  inversion Hall as [|? ? Hr Hrest]; subst.
  destruct r as [[s p]|e]; [|exact I].
  simpl in Hr. destruct (String.eqb s ""); apply IH; auto.
  rewrite sum_qmarks_app, length_app. simpl. lia.
Qed.

Lemma join_rendered_balanced (rs : list (Result rendered)) (op : string) :
  Forall balanced rs -> count_qmarks op = 0 -> balanced (join_rendered rs op).
Proof.
  intros Hall Hop. unfold join_rendered.
  destruct rs as [|r rs']; [reflexivity|].
  pose proof (join_loop_balanced (r :: rs') [] [] Hall eq_refl) as H.
  destruct (join_loop (r :: rs') [] []) as [[parts params]|e]; [|exact I].
  destruct parts as [|p [|q ps]]; [reflexivity|simpl in H |- *; lia|].
  unfold balanced. rewrite count_qmarks_app, count_qmarks_app, count_qmarks_join.
  - assert (count_qmarks "(" = 0) by reflexivity.
    assert (count_qmarks ")" = 0) by reflexivity. lia.
  - rewrite !count_qmarks_app, Hop. reflexivity.
Qed.

Lemma func_loop_balanced (i : nat) (rs : list (Result rendered)) (parts : list string)
    (params : list value) :
  Forall balanced rs -> sum_qmarks parts = length params ->
  match func_loop i rs parts params with
  | Ok (parts', params') => sum_qmarks parts' = length params'
  | Err _ => True
  end.
Proof.
  revert i parts params.
  induction rs as [|r rs IH]; intros i parts params Hall Hp; simpl; [exact Hp|].
  inversion Hall as [|? ? Hr Hrest]; subst.
  destruct r as [[s p]|e]; [|exact I].
  simpl in Hr. apply IH; auto.
  rewrite sum_qmarks_app, length_app. simpl. lia.
Qed.

Lemma forall_render_balanced (cs : list Expr) :
  Forall (fun e => math_free e = true -> balanced (render e)) cs ->
  forallb math_free cs = true -> Forall balanced (map render cs).
Proof.
  induction cs as [|c cs IH]; intros Hall Hf; simpl; [constructor|].
  apply andb_true_iff in Hf as [Hc Hcs].
  inversion Hall as [|? ? H1 H2]; subst.
  constructor; auto.
Qed.

Lemma sum_qmarks_placeholders {A} (vs : list A) :
  sum_qmarks (map (fun _ => "?") vs) = length vs.
Proof. induction vs as [|v vs IH]; simpl; [reflexivity|rewrite IH; reflexivity]. Qed.

Ltac split_true H :=
  repeat match goal with
         | K : (_ && _) = true |- _ => let K1 := fresh H in apply andb_true_iff in K as [K1 K]
         end.

Ltac noq_zero :=
  repeat match goal with
         | H : noq _ = true |- _ => unfold noq in H; apply Nat.eqb_eq in H
         | H : field_noq ?f = true |- _ =>
             pose proof (field_sql_noq f H);
             unfold field_noq in H; split_true H
         end.

Ltac count_lia :=
  repeat first [ rewrite count_qmarks_app | rewrite length_app
               | progress cbn -[field_sql] ]; lia.

(** Every expression that avoids the math operators renders with as many
    [?] placeholders as arguments. *)
Lemma math_free_balanced (e : Expr) : math_free e = true -> balanced (render e).
Proof.
  induction e using Expr_deep_ind; cbn [math_free]; intros Hm; split_true Hm; noq_zero;
    try discriminate.
  - (* field *) cbn -[field_sql]. lia.
  - (* literal *) reflexivity.
  - (* comparison *) cbn -[field_sql]. count_lia.
  - (* like *) cbn -[field_sql]. count_lia.
  - (* IN *)
    destruct vs as [|v vs]; [reflexivity|]. unfold render, balanced.
    rewrite !count_qmarks_app, count_qmarks_join by reflexivity.
    rewrite sum_qmarks_placeholders. cbn -[field_sql]. lia.
  - (* fieldComparison *)
    specialize (IHe1 ltac:(assumption)). specialize (IHe2 ltac:(assumption)).
    cbn -[field_sql]. destruct (render e1) as [[ls lp]|]; [|exact I]. cbn -[field_sql].
    destruct (render e2) as [[rs rp]|]; [|exact I]. cbn -[field_sql] in *.
    count_lia.
  - (* null *) match goal with bb : bool |- _ => destruct bb end; cbn -[field_sql]; count_lia.
  - (* between *) cbn -[field_sql]. count_lia.
  - (* betweenExpr *)
    specialize (IHe1 ltac:(assumption)). specialize (IHe2 ltac:(assumption)).
    cbn -[field_sql]. destruct (render e1) as [[as_ ap]|]; [|exact I]. cbn -[field_sql].
    destruct (render e2) as [[bs bp]|]; [|exact I]. cbn -[field_sql] in *.
    count_lia.
  - (* or *)
    apply join_rendered_balanced; [apply forall_render_balanced; assumption|reflexivity].
  - (* and *)
    apply join_rendered_balanced; [apply forall_render_balanced; assumption|reflexivity].
  - (* paren *)
    specialize (IHe ltac:(assumption)). cbn -[field_sql]. destruct (render e) as [[s p]|]; [|exact I]. cbn -[field_sql] in *.
    count_lia.
  - (* noOp *) reflexivity.
  - (* field operation *) cbn -[field_sql]. count_lia.
  - (* function call *)
    pose proof (func_loop_balanced 0 (map render args) [] []
                  (forall_render_balanced args H Hm) eq_refl) as Hl.
    cbn -[field_sql]. destruct (func_loop 0 (map render args) [] []) as [[parts params]|]; [|exact I].
    cbn [bind_r balanced].
    repeat first [ rewrite count_qmarks_app | rewrite count_qmarks_join by reflexivity
                 | progress cbn -[field_sql join] ]; lia.
  - (* alias *)
    specialize (IHe ltac:(assumption)). cbn -[field_sql]. destruct (render e) as [[s p]|]; [|exact I]. cbn -[field_sql] in *.
    count_lia.
  - (* order *)
    specialize (IHe ltac:(assumption)). cbn -[field_sql]. destruct (render e) as [[s p]|]; [|exact I]. cbn -[field_sql] in *.
    match goal with bb : bool |- _ => destruct bb end; count_lia.
  - (* not *)
    pose proof (forall_render_balanced cs H Hm) as Hb.
    destruct cs as [|c [|c' cs']]; [reflexivity| |].
    + inversion Hb as [|? ? Hc _]; subst.
      cbn -[field_sql]. destruct (render c) as [[s p]|]; [|exact I]. cbn -[field_sql] in *. count_lia.
    + pose proof (join_rendered_balanced _ "AND" Hb eq_refl) as Hj.
      cbn [render]. fold (map render (c :: c' :: cs')).
      destruct (join_rendered (map render (c :: c' :: cs')) "AND") as [[s p]|];
        [|exact I]. cbn -[field_sql] in *. count_lia.
  - (* custom *)
    destruct r as [[s p]|]; [|exact I]. apply Nat.eqb_eq. exact Hm.
Qed.

(** C1: the placeholder invariant holds for every expression that avoids
    the math operators, but not for a math chain whose operands carry
    arguments: [Add(Int64(1), Int64(2))] renders ["? + ?"] (two placeholders)
    with an empty argument list, because the loop of [mathOperation.ToSQL]
    appends each operand's arguments to a shadowing local [params]. *)
Theorem math_chain_drops_operand_args :
  (forall e, math_free e = true -> balanced (render e))
  /\ render (Add [ELit (VInt64 1); ELit (VInt64 2)]) = Ok ("? + ?", [])
  /\ count_qmarks "? + ?" = 2
  /\ length (@nil value) = 0
  /\ ~ balanced (render (Add [ELit (VInt64 1); ELit (VInt64 2)])).
Proof.
  split; [exact math_free_balanced|].
  repeat split. cbn. discriminate.
Qed.

(** C5: with the conditions [[noOp, id.Eq(1)]] the DELETE builder's inline
    join writes the separator before skipping the empty entry and renders
    ["DELETE FROM `t` WHERE  AND `t`.`id` = ?"], while [and()] over the same
    list renders just ["`t`.`id` = ?"]. *)
Theorem delete_where_noop_leaves_separator :
  delete_SQL (delete_Where [ENoOp; Int64_Eq t_id 1] (DeleteFrom "t"))
    = Ok ("DELETE FROM `t` WHERE  AND `t`.`id` = ?", [VInt64 1])
  /\ joinCodnitions [ENoOp; Int64_Eq t_id 1] "AND" = Ok ("`t`.`id` = ?", [VInt64 1])
  /\ "DELETE FROM `t` WHERE  AND `t`.`id` = ?" <> "DELETE FROM `t` WHERE " ++ "`t`.`id` = ?".
Proof. split; [reflexivity|split; [reflexivity|discriminate]]. Qed.

(** ** and() / or() *)

(** The rendering the spec gives for [and()]/[or()] over already rendered
    sub-expressions: drop the empty fragments, then no-op, verbatim, or
    parenthesized and joined. *)
Definition joined_as_specified (rs : list rendered) (op : string) : rendered :=
  let kept := filter (fun r => negb (String.eqb (fst r) "")) rs in
  match kept with
  | [] => ("", [])
  | [r] => r
  | _ => ("(" ++ join (" " ++ op ++ " ") (map fst kept) ++ ")", flat_map snd kept)
  end.

Lemma join_loop_all_ok (rs : list rendered) (parts : list string) (params : list value) :
  join_loop (map Ok rs) parts params
  = Ok ((parts ++ map fst (filter (fun r => negb (String.eqb (fst r) "")) rs))%list,
        (params ++ flat_map snd (filter (fun r => negb (String.eqb (fst r) "")) rs))%list).
Proof.
  revert parts params.
  induction rs as [|[s p] rs IH]; intros parts params; simpl.
  - now rewrite !app_nil_r.
  - destruct (String.eqb s "") eqn:E; simpl.
    + apply IH.
    + rewrite IH, <- !app_assoc. reflexivity.
Qed.

(** C2: when every sub-expression renders, [and()]/[or()] drop the empty
    fragments and render nothing, the one remaining fragment verbatim, or
    the remaining fragments parenthesized and joined by [" AND "]/[" OR "]
    with their arguments in source order. *)
Theorem joinCodnitions_drops_noops :
  forall (conditions : list Expr) (rs : list rendered) (op : string),
    map render conditions = map Ok rs ->
    joinCodnitions conditions op = Ok (joined_as_specified rs op).
Proof.
  intros conditions rs op H. unfold joinCodnitions, join_rendered, joined_as_specified.
  rewrite H. destruct rs as [|r rs']; [reflexivity|].
  rewrite join_loop_all_ok, !app_nil_l. cbv zeta. cbn [map].
  generalize (filter (fun r0 : string * list value => negb (String.eqb (fst r0) ""))
                (r :: rs')).
  intros kept.
  destruct kept as [|[s1 p1] [|[s2 p2] kept']]; simpl; try reflexivity.
  now rewrite app_nil_r.
Qed.

Lemma joinCodnitions_drops_noops_witness :
  map render [ENoOp; Int64_Eq t_id 1; Int64_Eq t_age 2]
    = map Ok [("", []); ("`t`.`id` = ?", [VInt64 1]); ("`t`.`age` = ?", [VInt64 2])]
  /\ joinCodnitions [ENoOp; Int64_Eq t_id 1; Int64_Eq t_age 2] "AND"
     = Ok ("(`t`.`id` = ? AND `t`.`age` = ?)", [VInt64 1; VInt64 2]).
Proof.
  split; [reflexivity|].
  rewrite (joinCodnitions_drops_noops _
             [("", []); ("`t`.`id` = ?", [VInt64 1]); ("`t`.`age` = ?", [VInt64 2])]);
    reflexivity.
Defined.

(** ** Staged errors of the INSERT builder *)

Lemma insert_Sets_app (s1 s2 : list (Field * Expr)) (b : InsertIntoBuilder) :
  insert_Sets (s1 ++ s2) b = insert_Sets s2 (insert_Sets s1 b).
Proof. unfold insert_Sets. apply fold_left_app. Qed.

(** Once an error is staged every further [Set] is skipped. *)
Lemma insert_Sets_errored (sets : list (Field * Expr)) (b : InsertIntoBuilder) (e : error) :
  ib_err b = Some e -> insert_Sets sets b = b.
Proof.
  revert b. induction sets as [|[f v] sets IH]; intros b H; simpl; [reflexivity|].
  unfold insert_Sets in IH |- *. simpl.
  unfold insert_Set at 2. rewrite H. now apply IH.
Qed.

(** Successful [Set] calls never stage an error. *)
Lemma insert_Sets_ok (sets : list (Field * Expr)) (b : InsertIntoBuilder) :
  Forall (fun fv => exists r, render (snd fv) = Ok r) sets ->
  ib_err b = None -> ib_err (insert_Sets sets b) = None.
Proof.
  revert b. induction sets as [|[f v] sets IH]; intros b Hall H; simpl; [exact H|].
  inversion Hall as [|? ? [[s p] Hr] Hrest]; subst.
  unfold insert_Sets in IH |- *. simpl. apply IH; [exact Hrest|].
  unfold insert_Set. rewrite H. simpl in Hr. rewrite Hr. reflexivity.
Qed.

(** C3: in a chain of [Set] calls on [InsertInto(t)] whose first failing
    value is [v] (on field [f]), the error is staged at that call, later
    calls add nothing, and [SQL()] returns exactly that error whatever the
    table name (also [""]) and the number of columns stored. *)
Theorem insert_staged_error_returned :
  forall (t : string) (pre post : list (Field * Expr)) (f : Field) (v : Expr) (e : error),
    Forall (fun fv => exists r, render (snd fv) = Ok r) pre ->
    render v = Err e ->
    let b := insert_Sets (pre ++ (f, v) :: post) (InsertInto t) in
    ib_err b = Some (ErrSetField (FieldName f) e)
    /\ ib_updates b = ib_updates (insert_Sets pre (InsertInto t))
    /\ insert_SQL b = Err (ErrSetField (FieldName f) e).
Proof.
  intros t pre post f v e Hpre Hv b.
  assert (Hb : b = insert_Set f v (insert_Sets pre (InsertInto t))).
  { unfold b. rewrite insert_Sets_app.
    change (insert_Sets ((f, v) :: post) (insert_Sets pre (InsertInto t)))
      with (insert_Sets post (insert_Set f v (insert_Sets pre (InsertInto t)))).
    apply (insert_Sets_errored _ _ (ErrSetField (FieldName f) e)).
    unfold insert_Set.
    rewrite (insert_Sets_ok pre (InsertInto t) Hpre eq_refl), Hv. reflexivity. }
  unfold insert_Set in Hb.
  rewrite (insert_Sets_ok pre (InsertInto t) Hpre eq_refl), Hv in Hb.
  rewrite Hb. repeat split.
Qed.

Lemma insert_staged_error_returned_witness :
  Forall (fun fv => exists r, render (snd fv) = Ok r) [(t_age, ELit (VInt64 30))]
  /\ render (ECustom (Err (ErrMsg "boom"))) = Err (ErrMsg "boom")
  /\ insert_SQL (insert_Sets [(t_age, ELit (VInt64 30));
                             (t_id, ECustom (Err (ErrMsg "boom")));
                             (t_age, ELit (VInt64 31))] (InsertInto ""))
     = Err (ErrSetField "id" (ErrMsg "boom")).
Proof.
  assert (Hpre : Forall (fun fv => exists r, render (snd fv) = Ok r)
                   [(t_age, ELit (VInt64 30))]).
  { constructor; [eexists; reflexivity | constructor]. }
  split; [exact Hpre|split; [reflexivity|]].
  exact (proj2 (proj2 (insert_staged_error_returned "" [(t_age, ELit (VInt64 30))]
           [(t_age, ELit (VInt64 31))] t_id (ECustom (Err (ErrMsg "boom")))
           (ErrMsg "boom") Hpre eq_refl))).
Defined.

(** ** By-ID operations *)

Definition has_id_field (tbl : Table) : bool :=
  existsb (fun f => String.eqb (FieldName f) "id") (tbl_fields tbl).

Definition id_error (e : error) : error := ErrWrap "failed to convert id to condition" e.

(** C10: [GetByID], [UpdateByID] and [DeleteByID] with id 0 fail with
    "requires id, got 0" and issue no engine call; on a table without an
    [id] field they fail without an engine call whatever the id; for a
    non-zero id on a table with an [id] field the condition is the
    unqualified ["`id` = ?"] with the id as its argument. *)
Theorem by_id_operations_guard :
  forall (A : Type) (get : list Expr -> Eng A) (camel_to_snake : string -> string)
         (now : Z) (exec_err : string -> list value -> option error)
         (tbl : Table) (data : option (list PField)),
    (GetByID get tbl 0 = Returns ([], Err (id_error (ErrMsg "requires id, got 0")))
     /\ UpdateByID camel_to_snake now exec_err tbl 0 data
          = Returns ([], Err (id_error (ErrMsg "requires id, got 0")))
     /\ DeleteByID exec_err tbl 0
          = Returns ([], Err (id_error (ErrMsg "requires id, got 0"))))
    /\ (forall id : Z, has_id_field tbl = false ->
          exists e, GetByID get tbl id = Returns ([], Err (id_error e))
          /\ UpdateByID camel_to_snake now exec_err tbl id data = Returns ([], Err (id_error e))
          /\ DeleteByID exec_err tbl id = Returns ([], Err (id_error e)))
    /\ (forall id : Z, id <> 0%Z -> has_id_field tbl = true ->
          exists c, toIDCondition tbl id = Ok c
          /\ render c = Ok ("`id` = ?", [VInt64 id])
          /\ GetByID get tbl id = get [c]
          /\ UpdateByID camel_to_snake now exec_err tbl id data
             = update camel_to_snake now exec_err tbl [c] data
          /\ DeleteByID exec_err tbl id = deleteBy exec_err tbl [c]).
Proof.
  intros A get camel_to_snake now exec_err tbl data.
  split; [|split].
  - repeat split.
  - intros id Hno.
    destruct (Z.eqb id 0) eqn:E.
    + exists (ErrMsg "requires id, got 0").
      unfold GetByID, UpdateByID, DeleteByID, toIDCondition. rewrite E. repeat split.
    + exists ErrMissingIDField.
      unfold GetByID, UpdateByID, DeleteByID, toIDCondition.
      unfold has_id_field in Hno. rewrite E, Hno. repeat split.
  - intros id Hid Hyes.
    assert (E : Z.eqb id 0 = false) by (apply Z.eqb_neq; exact Hid).
    exists (Int64_Eq (mkField "id" "" KInt64) id).
    unfold GetByID, UpdateByID, DeleteByID, toIDCondition.
    unfold has_id_field in Hyes. rewrite E, Hyes. repeat split.
Qed.

(** ** The optional type check *)

(** What the loop of [validateOptionalType] accepts for one field of [P]. *)
Definition optional_field_ok (modelFields : list StructField) (o : StructField) : Prop :=
  sf_exported o = true ->
  exists el mf, sf_Type o = TPtr el
    /\ model_lookup modelFields (sf_Name o) = Some mf
    /\ el = sf_Type mf
    /\ (is_time_name (sf_Name o) = true -> el = TTime).

Lemma check_optional_field_none (mfs : list StructField) (o : StructField) :
  check_optional_field mfs o = None <->
  exists el mf, sf_Type o = TPtr el
    /\ model_lookup mfs (sf_Name o) = Some mf
    /\ el = sf_Type mf
    /\ (is_time_name (sf_Name o) = true -> el = TTime).
Proof.
  unfold check_optional_field. split.
  - destruct (is_time_name (sf_Name o)) eqn:Ht.
    + destruct (sf_Type o) as [| | | | | | |el|n] eqn:Ty; try discriminate.
      destruct (GoType_eq_dec el TTime) as [Hel|]; [|discriminate].
      destruct (model_lookup mfs (sf_Name o)) as [mf|]; [|discriminate].
      destruct (GoType_eq_dec el (sf_Type mf)) as [Hm|]; [|discriminate].
      intros _. exists el, mf. repeat split; auto.
    + destruct (model_lookup mfs (sf_Name o)) as [mf|]; [|discriminate].
      destruct (sf_Type o) as [| | | | | | |el|n]; try discriminate.
      destruct (GoType_eq_dec el (sf_Type mf)) as [Hm|]; [|discriminate].
      intros _. exists el, mf. repeat split; auto. discriminate.
  - intros (el & mf & Ty & Hl & Hm & Ht). subst el. rewrite Ty, Hl.
    destruct (is_time_name (sf_Name o)).
    + destruct (GoType_eq_dec (sf_Type mf) TTime) as [_|n];
        [|exfalso; exact (n (Ht eq_refl))].
      destruct (GoType_eq_dec (sf_Type mf) (sf_Type mf)) as [_|n]; [reflexivity|].
      now destruct n.
    + destruct (GoType_eq_dec (sf_Type mf) (sf_Type mf)) as [_|n]; [reflexivity|].
      now destruct n.
Qed.

Lemma check_optional_fields_ok (mfs ofs : list StructField) :
  check_optional_fields mfs ofs = Ok tt <-> Forall (optional_field_ok mfs) ofs.
Proof.
  induction ofs as [|o ofs IH]; simpl.
  - split; [constructor|reflexivity].
  - destruct (sf_exported o) eqn:Ex; simpl.
    + destruct (check_optional_field mfs o) as [e|] eqn:Hc.
      * split; [discriminate|].
        intros Hall. inversion Hall as [|? ? Ho _]; subst.
        apply check_optional_field_none in Ho; [congruence|exact Ex].
      * rewrite IH. split.
        -- intros H. constructor; [|exact H].
           intros _. apply check_optional_field_none. exact Hc.
        -- intros H. inversion H. assumption.
    + rewrite IH. split.
      * intros H. constructor; [|exact H]. intros Hc. congruence.
      * intros H. inversion H. assumption.
Qed.

(** Model [struct { Id int64; Name string }] and partial type
    [struct { Id *int64 }], which has no field for [Name]. *)
Definition model_id_name : RType :=
  RStruct [mkStructField "Id" true TInt64; mkStructField "Name" true TString].
Definition optional_id_only : RType :=
  RStruct [mkStructField "Id" true (TPtr TInt64)].

(** C4 (counterexample): a partial type missing the [Name] field of the
    model is accepted. *)
Lemma optional_type_missing_field_accepted :
  model_lookup [mkStructField "Id" true (TPtr TInt64)] "Name" = None
  /\ validateOptionalType model_id_name optional_id_only = Returns (Ok tt).
Proof. split; reflexivity. Qed.

(** C4 (as the code does it): for a struct [T], [P] is accepted exactly
    when [P] is a struct and each exported field of [P] names an exported
    field of [T], is a pointer, has that field's type as element type, and
    for [CreateTime]/[UpdateTime] points to time.Time; fields of [T]
    without a counterpart in [P] are not checked. *)
Theorem validateOptionalType_accepts :
  forall (modelFields : list StructField) (P : RType),
    validateOptionalType (RStruct modelFields) P = Returns (Ok tt)
    <-> exists ofs, P = RStruct ofs /\ Forall (optional_field_ok modelFields) ofs.
Proof.
  intros modelFields P. destruct P as [ofs|t]; simpl.
  - split.
    + intros H. exists ofs. split; [reflexivity|].
      apply check_optional_fields_ok. congruence.
    + intros (ofs' & Heq & Hall). injection Heq as <-.
      f_equal. apply check_optional_fields_ok. exact Hall.
  - split; [discriminate|]. intros (ofs & Heq & _). discriminate.
Qed.

(** ** Partial updates ([ORM.update]) *)

(** A concrete [CamelToSnake] for ASCII strict-CamelCase names, used by the
    examples: an upper-case letter becomes ['_'] (except at the start)
    followed by its lower-case form. *)
Definition is_upper (c : ascii) : bool :=
  (65 <=? nat_of_ascii c)%nat && (nat_of_ascii c <=? 90)%nat.

Fixpoint camel_to_snake_ascii_aux (first : bool) (s : string) : string :=
  match s with
  | EmptyString => EmptyString
  | String c s' =>
      if is_upper c
      then (if first then "" else "_")
             ++ String (ascii_of_nat (nat_of_ascii c + 32)) (camel_to_snake_ascii_aux false s')
      else String c (camel_to_snake_ascii_aux false s')
  end.

Definition camel_to_snake_ascii (s : string) : string := camel_to_snake_ascii_aux true s.

Example camel_to_snake_update_time : camel_to_snake_ascii "UpdateTime" = "update_time".
Proof. reflexivity. Qed.

(** The table and partial objects of the update examples. *)
Definition test_table : Table :=
  mkTable "test_table"
    [mkField "id" "test_table" KInt64; mkField "name" "test_table" KString;
     mkField "age" "test_table" KInt64; mkField "update_time" "test_table" KTime].

Definition partial_name_only : list PField :=
  [mkPField "Name" true (SPtr (Some (GString "Updated Name")));
   mkPField "Age" true (SPtr None);
   mkPField "UpdateTime" true (SPtr None)].


(** A nil [UpdateTime] is filled with the current time when another field
    is set. *)
Example update_fills_update_time :
  UpdateByID camel_to_snake_ascii 1700000000 (fun _ _ => None) test_table 42
    (Some partial_name_only)
  = Returns ([CExec "UPDATE `test_table` SET `name`=?, `update_time`=? WHERE `id` = ?"
                [VString "Updated Name"; VTime 1700000000; VInt64 42]], Ok tt).
Proof. reflexivity. Qed.













(* ================================================================== *)
(** * Further properties of the builders, the binding layer and the
    naming helpers *)


Lemma str_app_assoc (s1 s2 s3 : string) : (s1 ++ s2) ++ s3 = s1 ++ (s2 ++ s3).
Proof. induction s1 as [|c s1 IH]; simpl; [reflexivity|rewrite IH; reflexivity]. Qed.

Lemma str_app_nil_r (s : string) : s ++ "" = s.
Proof. induction s as [|c s IH]; simpl; [reflexivity|rewrite IH; reflexivity]. Qed.

Lemma join_loop_app (rs1 rs2 : list (Result rendered)) (parts : list string)
    (params : list value) :
  join_loop (rs1 ++ rs2) parts params =
  match join_loop rs1 parts params with
  | Ok (parts', params') => join_loop rs2 parts' params'
  | Err e => Err e
  end.
Proof.
  revert parts params.
  induction rs1 as [|r rs1 IH]; intros parts params; simpl; [reflexivity|].
  destruct r as [[s p]|e]; [|reflexivity].
  destruct (String.eqb s ""); apply IH.
Qed.

(** An expression whose [ToSQL] is the empty fragment. *)
Definition renders_empty (e : Expr) : Prop := exists p, render e = Ok ("", p).

Lemma join_loop_empties (cs : list Expr) (parts : list string) (params : list value) :
  Forall renders_empty cs -> join_loop (map render cs) parts params = Ok (parts, params).
Proof.
  induction 1 as [|c cs [p Hp] _ IH]; simpl; [reflexivity|]. rewrite Hp. exact IH.
Qed.

Lemma select_filter_clause_app_empties (kw msg : string) (cs extra : list Expr) :
  Forall renders_empty extra ->
  select_filter_clause kw msg (cs ++ extra) = select_filter_clause kw msg cs.
Proof.
  intros H. unfold select_filter_clause.
  destruct cs as [|c cs].
  - destruct extra as [|x xs]; [reflexivity|].
    cbn [app]. rewrite (join_loop_empties (x :: xs) [] [] H). reflexivity.
  - rewrite map_app, join_loop_app.
    change ((c :: cs) ++ extra)%list with (c :: (cs ++ extra))%list.
    destruct (join_loop (map render (c :: cs)) [] []) as [[parts params]|e]; [|reflexivity].
    rewrite (join_loop_empties extra parts params H). reflexivity.
Qed.

Ltac sb_proj :=
  cbn [sb_fields sb_tableName sb_joins sb_conditions sb_excludeFields sb_groupBys
       sb_havings sb_orderBys sb_limit sb_offset] in *.

(** X: WHERE and HAVING conditions that render to nothing leave the SELECT
    statement and its arguments as they were. *)
Theorem select_empty_conditions_ignored (b : SelectBuilder) (cs : list Expr) :
  Forall renders_empty cs ->
  select_SQL (select_Where cs b) = select_SQL b
  /\ select_SQL (select_Having cs b) = select_SQL b.
Proof.
  intros H. unfold select_SQL, select_Where, select_Having. sb_proj.
  rewrite !select_filter_clause_app_empties by exact H. split; reflexivity.
Qed.

Lemma select_empty_conditions_ignored_witness :
  let b := select_Where [Int64_Eq t_id 3] (select_From "t" (Select [EField t_id])) in
  Forall renders_empty [ENoOp; EIn t_age []]
  /\ select_SQL (select_Where [ENoOp; EIn t_age []] b) = select_SQL b
  /\ select_SQL (select_Having [ENoOp; EIn t_age []] b) = select_SQL b.
Proof.
  intros b.
  assert (H : Forall renders_empty [ENoOp; EIn t_age []])
    by (repeat constructor; eexists; reflexivity).
  split; [exact H|]. apply (select_empty_conditions_ignored b _ H).
Defined.

Ltac str_norm :=
  repeat progress (rewrite ?str_app_nil_r, ?str_app_assoc; cbn [append]).

Ltac destruct_binds :=
  repeat match goal with
         | |- context [bind_r ?r _] =>
             let x := fresh "x" in let y := fresh "y" in let e := fresh "e" in
             destruct r as [[x y]|e]; cbn [bind_r]
         end.

(** The builder without its LIMIT and OFFSET. *)
Definition select_no_limit (b : SelectBuilder) : SelectBuilder :=
  mkSelectBuilder (sb_fields b) (sb_tableName b) (sb_joins b) (sb_conditions b)
    (sb_excludeFields b) (sb_groupBys b) (sb_havings b) (sb_orderBys b) None None.

Lemma select_SQL_limit_suffix (b : SelectBuilder) :
  select_SQL b =
  match select_SQL (select_no_limit b) with
  | Ok (s, q) => Ok (s ++ limit_offset_clause (sb_limit b) (sb_offset b), q)
  | Err e => Err e
  end.
Proof.
  destruct b as [fs t js cs xs gs hs os l o].
  unfold select_SQL, select_no_limit. sb_proj.
  destruct (String.eqb t ""); [reflexivity|].
  destruct fs as [|f fs], xs as [|x xs]; try reflexivity;
    destruct_binds; try reflexivity;
    cbn [limit_offset_clause]; rewrite str_app_nil_r, ?str_app_assoc; reflexivity.
Qed.

(** X: LIMIT and OFFSET only append a suffix to the statement, MySQL's
    short form [LIMIT offset,limit] when both are set. *)
Theorem select_limit_offset_suffix (b : SelectBuilder) (s : string) (q : list value)
    (l o : Z) :
  sb_limit b = None -> sb_offset b = None -> select_SQL b = Ok (s, q) ->
  select_SQL (select_Offset o (select_Limit l b))
    = Ok (s ++ " LIMIT " ++ Z_to_decimal o ++ "," ++ Z_to_decimal l, q)
  /\ select_SQL (select_Limit l b) = Ok (s ++ " LIMIT " ++ Z_to_decimal l, q)
  /\ select_SQL (select_Offset o b) = Ok (s ++ " OFFSET " ++ Z_to_decimal o, q).
Proof.
  intros Hl Ho H.
  assert (Hb : select_no_limit b = b)
    by (destruct b; cbn in Hl, Ho; subst; reflexivity).
  rewrite <- Hb in H.
  repeat split; rewrite select_SQL_limit_suffix;
    unfold select_Offset, select_Limit, select_no_limit in *; sb_proj; rewrite ?Hl, ?Ho;
    destruct b; sb_proj; rewrite H; reflexivity.
Qed.

Lemma select_limit_offset_suffix_witness :
  let b := select_Where [Int64_Eq t_id 3] (select_From "t" (Select [EField t_id])) in
  select_SQL b = Ok ("SELECT `t`.`id` FROM `t` WHERE `t`.`id` = ?", [VInt64 3])
  /\ select_SQL (select_Offset 20 (select_Limit 10 b))
       = Ok ("SELECT `t`.`id` FROM `t` WHERE `t`.`id` = ? LIMIT 20,10", [VInt64 3]).
Proof.
  intros b. assert (H : select_SQL b = Ok ("SELECT `t`.`id` FROM `t` WHERE `t`.`id` = ?", [VInt64 3]))
    by reflexivity.
  split; [exact H|].
  destruct (select_limit_offset_suffix b _ _ 10 20 eq_refl eq_refl H) as [H1 _].
  rewrite H1. reflexivity.
Defined.

Lemma select_joins_loop_app (js : list sjoin) (j : sjoin) (sb : string) (params : list value) :
  select_joins_loop (js ++ [j]) sb params =
  bind_r (select_joins_loop js sb params) (fun '(s, p) => select_joins_loop [j] s p).
Proof.
  revert sb params.
  induction js as [|j' js IH]; intros sb params; [reflexivity|].
  cbn [app select_joins_loop]. destruct (render (j_condition j')) as [[js' jp]|e]; [|reflexivity].
  destruct (String.eqb js' ""); apply IH.
Qed.

(** [SelectBuilder.SQL] with the result of its JOIN loop given. *)
Definition select_SQL_from_joins (b : SelectBuilder) (joins : Result rendered)
    : Result rendered :=
  if String.eqb (sb_tableName b) "" then Err (ErrMsg "from table is required")
  else
    match sb_fields b, sb_excludeFields b with
    | [], _ :: _ => Err (ErrMsg "exclude fields without selected fields")
    | _, _ =>
      bind_r (wrap_err "failed to build exclude field"
                (collect_loop (map render (sb_excludeFields b)) [] []))
        (fun '(excludedNames, _) =>
      bind_r (select_fields_loop excludedNames (map render (sb_fields b)) [] [])
        (fun '(fieldParts, fieldParams) =>
      bind_r joins
        (fun '(joinSQL, joinParams) =>
      bind_r (select_filter_clause " WHERE " "failed to build where condition"
                (sb_conditions b))
        (fun '(whereSQL, whereParams) =>
      bind_r (select_list_clause " GROUP BY " "failed to build group by condition"
                (sb_groupBys b))
        (fun '(groupSQL, groupParams) =>
      bind_r (select_filter_clause " HAVING " "failed to build having condition"
                (sb_havings b))
        (fun '(havingSQL, havingParams) =>
      bind_r (select_list_clause " ORDER BY " "failed to build order by condition"
                (sb_orderBys b))
        (fun '(orderSQL, orderParams) =>
      Ok ("SELECT " ++ join ", " fieldParts ++ " FROM `" ++ sb_tableName b ++ "`"
            ++ joinSQL ++ whereSQL ++ groupSQL ++ havingSQL ++ orderSQL
            ++ limit_offset_clause (sb_limit b) (sb_offset b),
          (fieldParams ++ joinParams ++ whereParams ++ groupParams
             ++ havingParams ++ orderParams)%list))))))))
    end.

Lemma select_SQL_from_joins_eq (b : SelectBuilder) :
  select_SQL b = select_SQL_from_joins b (select_joins_loop (sb_joins b) "" []).
Proof. reflexivity. Qed.

Lemma select_SQL_from_joins_join (jt tn : string) (c : Expr) (b : SelectBuilder)
    (joins : Result rendered) :
  select_SQL_from_joins (select_join jt tn c b) joins = select_SQL_from_joins b joins.
Proof. destruct b; reflexivity. Qed.

Lemma select_SQL_from_joins_shape (b : SelectBuilder) (x : string) (jp : list value)
    (s : string) (q : list value) :
  select_SQL_from_joins b (Ok (x, jp)) = Ok (s, q) ->
  exists fsql post,
    s = "SELECT " ++ fsql ++ " FROM `" ++ sb_tableName b ++ "`" ++ x ++ post
    /\ forall y, select_SQL_from_joins b (Ok (y, jp))
                 = Ok ("SELECT " ++ fsql ++ " FROM `" ++ sb_tableName b ++ "`" ++ y ++ post, q).
Proof.
  unfold select_SQL_from_joins.
  destruct (String.eqb (sb_tableName b) ""); [discriminate|].
  destruct (sb_fields b) as [|f fs]; [destruct (sb_excludeFields b) as [|x' xs]; [|discriminate]|].
  all: cbn [bind_r]; destruct_binds; try discriminate.
  all: intros H;
    match type of H with
    | Ok (?S, ?Q) = Ok (?s0, ?q0) =>
        assert (E : s0 = S /\ q0 = Q) by (inversion H; split; reflexivity)
    end;
    destruct E as [-> ->]; do 2 eexists; split; [reflexivity|intros y'; reflexivity].
Qed.

(** X: a JOIN or LEFT JOIN whose condition renders to nothing is still
    written, [ON] with nothing after it, right after the joins already
    there; the rest of the SELECT and its arguments are unchanged. *)
Theorem select_join_empty_condition_dangles (b : SelectBuilder) (tn : string) (c : Expr)
    (p : list value) (jsql : string) (jp : list value) (s : string) (q : list value) :
  render c = Ok ("", p) -> select_joins_loop (sb_joins b) "" [] = Ok (jsql, jp) ->
  select_SQL b = Ok (s, q) ->
  exists fsql post,
    s = "SELECT " ++ fsql ++ " FROM `" ++ sb_tableName b ++ "`" ++ jsql ++ post
    /\ select_SQL (select_Join tn c b)
       = Ok ("SELECT " ++ fsql ++ " FROM `" ++ sb_tableName b ++ "`" ++ jsql
               ++ " JOIN `" ++ tn ++ "` ON " ++ post, q)
    /\ select_SQL (select_LeftJoin tn c b)
       = Ok ("SELECT " ++ fsql ++ " FROM `" ++ sb_tableName b ++ "`" ++ jsql
               ++ " LEFT JOIN `" ++ tn ++ "` ON " ++ post, q).
Proof.
  intros Hr Hj H.
  rewrite select_SQL_from_joins_eq, Hj in H.
  destruct (select_SQL_from_joins_shape b jsql jp s q H) as [fsql [post [Hs Hall]]].
  exists fsql, post. split; [exact Hs|].
  unfold select_LeftJoin, select_Join.
  rewrite !select_SQL_from_joins_eq, !select_SQL_from_joins_join.
  assert (Hsj : forall jt, sb_joins (select_join jt tn c b) = (sb_joins b ++ [mkJoin tn c jt])%list)
    by reflexivity.
  rewrite !Hsj, !select_joins_loop_app, Hj. cbn [bind_r select_joins_loop j_condition
    j_joinType j_tableName]. rewrite Hr. cbn [String.eqb select_joins_loop].
  rewrite !Hall. split; f_equal; f_equal; str_norm; reflexivity.
Qed.

Lemma select_join_empty_condition_dangles_witness :
  let b := select_Limit 5 (select_Where [Int64_Eq t_id 3] (select_From "t" (Select [EField t_id]))) in
  select_SQL (select_Join "u" ENoOp b)
    = Ok ("SELECT `t`.`id` FROM `t` JOIN `u` ON  WHERE `t`.`id` = ? LIMIT 5", [VInt64 3])
  /\ exists fsql post,
       "SELECT `t`.`id` FROM `t` WHERE `t`.`id` = ? LIMIT 5"
         = "SELECT " ++ fsql ++ " FROM `" ++ sb_tableName b ++ "`" ++ "" ++ post
       /\ select_SQL (select_Join "u" ENoOp b)
          = Ok ("SELECT " ++ fsql ++ " FROM `" ++ sb_tableName b ++ "`" ++ ""
                  ++ " JOIN `" ++ "u" ++ "` ON " ++ post, [VInt64 3])
       /\ select_SQL (select_LeftJoin "u" ENoOp b)
          = Ok ("SELECT " ++ fsql ++ " FROM `" ++ sb_tableName b ++ "`" ++ ""
                  ++ " LEFT JOIN `" ++ "u" ++ "` ON " ++ post, [VInt64 3]).
Proof.
  intros b. split; [reflexivity|].
  exact (select_join_empty_condition_dangles b "u" ENoOp [] "" [] _ _ eq_refl eq_refl eq_refl).
Defined.

Lemma collect_loop_fields (xs : list Field) (parts : list string) (params : list value) :
  collect_loop (map render (map EField xs)) parts params
  = Ok ((parts ++ map field_sql xs)%list, params).
Proof.
  revert parts params.
  induction xs as [|x xs IH]; intros parts params; cbn [map collect_loop render].
  - rewrite app_nil_r. reflexivity.
  - rewrite IH, <- app_assoc, app_nil_r. reflexivity.
Qed.

Lemma select_fields_loop_fields (names : list string) (fs : list Field)
    (parts : list string) (params : list value) :
  select_fields_loop names (map render (map EField fs)) parts params
  = Ok ((parts ++ filter (fun s => negb (stringsContains names s)) (map field_sql fs))%list,
        params).
Proof.
  revert parts params.
  induction fs as [|f fs IH]; intros parts params; cbn [map select_fields_loop render filter].
  - rewrite app_nil_r. reflexivity.
  - destruct (stringsContains names (field_sql f)); cbn [negb].
    + apply IH.
    + rewrite IH, <- app_assoc, app_nil_r. reflexivity.
Qed.

(** X: [Exclude] drops from the select list every selected field that
    renders like an excluded one and keeps the order of the rest; when every
    selected field is excluded the statement is built with an empty select
    list. *)
Theorem select_exclude_fields (t : string) (fs xs : list Field) :
  t <> "" -> (fs <> [] \/ xs = []) ->
  select_SQL (select_Exclude (map EField xs) (select_From t (Select (map EField fs))))
    = Ok ("SELECT " ++ join ", " (filter (fun s => negb (stringsContains (map field_sql xs) s))
                                         (map field_sql fs))
            ++ " FROM `" ++ t ++ "`", [])
  /\ ((forall f, In f fs -> In f xs) ->
      select_SQL (select_Exclude (map EField xs) (select_From t (Select (map EField fs))))
        = Ok ("SELECT  FROM `" ++ t ++ "`", [])).
Proof.
  intros Ht Hor.
  assert (Hmain : select_SQL (select_Exclude (map EField xs) (select_From t (Select (map EField fs))))
    = Ok ("SELECT " ++ join ", " (filter (fun s => negb (stringsContains (map field_sql xs) s))
                                         (map field_sql fs))
            ++ " FROM `" ++ t ++ "`", [])).
  { unfold select_SQL, select_Exclude, select_From, Select. sb_proj. cbn [app].
    rewrite (proj2 (String.eqb_neq _ _) Ht).
    unfold wrap_err. rewrite collect_loop_fields. cbn [bind_r app].
    rewrite select_fields_loop_fields. cbn [bind_r app select_joins_loop select_filter_clause
      select_list_clause limit_offset_clause].
    destruct fs as [|f fs'], xs as [|x xs'];
      [| destruct Hor as [Hor|Hor]; [contradiction|discriminate] | |];
      cbn [map]; str_norm; reflexivity. }
  split; [exact Hmain|].
  intros Hin. rewrite Hmain.
  assert (Hf : filter (fun s => negb (stringsContains (map field_sql xs) s)) (map field_sql fs) = []).
  { clear Hmain Hor. induction fs as [|f fs IH]; [reflexivity|].
    cbn [map filter].
    assert (Hc : stringsContains (map field_sql xs) (field_sql f) = true).
    { unfold stringsContains. apply existsb_exists. exists (field_sql f). split.
      - apply in_map, Hin. left. reflexivity.
      - apply String.eqb_refl. }
    rewrite Hc. cbn [negb]. apply IH. intros g Hg. apply Hin. right. exact Hg. }
  rewrite Hf. reflexivity.
Qed.

Lemma select_exclude_fields_witness :
  select_SQL (select_Exclude [EField t_age] (select_From "t" (Select [EField t_id; EField t_age])))
    = Ok ("SELECT `t`.`id` FROM `t`", [])
  /\ select_SQL (select_Exclude [EField t_age] (select_From "t" (Select [EField t_age])))
    = Ok ("SELECT  FROM `t`", []).
Proof.
  assert (Ht : "t" <> "") by discriminate.
  split.
  - assert (Hor : [t_id; t_age] <> [] \/ [t_age] = []) by (left; discriminate).
    destruct (select_exclude_fields "t" [t_id; t_age] [t_age] Ht Hor) as [H _].
    exact H.
  - assert (Hor : [t_age] <> [] \/ [t_age] = []) by (left; discriminate).
    destruct (select_exclude_fields "t" [t_age] [t_age] Ht Hor) as [_ H].
    apply H. intros f Hf. exact Hf.
Defined.

Lemma forallb_balanced (l : list Expr) :
  forallb math_free l = true -> Forall balanced (map render l).
Proof.
  induction l as [|e l IH]; intros H; simpl; [constructor|].
  apply andb_true_iff in H as [He Hl]. constructor; [apply math_free_balanced, He|apply IH, Hl].
Qed.

Lemma collect_loop_balanced (rs : list (Result rendered)) (parts : list string)
    (params : list value) :
  Forall balanced rs -> sum_qmarks parts = length params ->
  match collect_loop rs parts params with
  | Ok (parts', params') => sum_qmarks parts' = length params'
  | Err _ => True
  end.
Proof.
  revert parts params.
  induction rs as [|r rs IH]; intros parts params Hall Hp; simpl; [exact Hp|].
  inversion Hall as [|? ? Hr Hrest]; subst.
  destruct r as [[s p]|e]; [|exact I].
  simpl in Hr. apply IH; auto.
  rewrite sum_qmarks_app, length_app. simpl. lia.
Qed.

Lemma select_fields_loop_balanced (names : list string) (rs : list (Result rendered))
    (parts : list string) (params : list value) :
  Forall balanced rs -> sum_qmarks parts = length params ->
  match select_fields_loop names rs parts params with
  | Ok (parts', params') => sum_qmarks parts' = length params'
  | Err _ => True
  end.
Proof.
  revert parts params.
  induction rs as [|r rs IH]; intros parts params Hall Hp; simpl; [exact Hp|].
  inversion Hall as [|? ? Hr Hrest]; subst.
  destruct r as [[s p]|e]; [|exact I].
  simpl in Hr. destruct (stringsContains names s); apply IH; auto.
  rewrite sum_qmarks_app, length_app. simpl. lia.
Qed.

(** A join whose type, table name and condition keep the placeholders and
    the arguments in step. *)
Definition join_noq (j : sjoin) : bool :=
  noq (j_joinType j) && noq (j_tableName j) && math_free (j_condition j).

Lemma select_joins_loop_balanced (js : list sjoin) (sb : string) (params : list value) :
  forallb join_noq js = true -> count_qmarks sb = length params ->
  balanced (select_joins_loop js sb params).
Proof.
  revert sb params.
  induction js as [|j js IH]; intros sb params Hj Hp; [exact Hp|].
  cbn [forallb] in Hj. apply andb_true_iff in Hj as [Hj Hjs].
  unfold join_noq in Hj. split_true Hj. noq_zero.
  pose proof (math_free_balanced _ Hj) as Hc.
  cbn [select_joins_loop].
  destruct (render (j_condition j)) as [[s p]|e]; [|exact I].
  cbn in Hc.
  destruct (String.eqb s ""); apply IH; auto;
    rewrite ?count_qmarks_app, ?length_app; simpl; rewrite ?count_qmarks_app; lia.
Qed.

Lemma select_filter_clause_balanced (kw msg : string) (cs : list Expr) :
  count_qmarks kw = 0 -> Forall balanced (map render cs) ->
  balanced (select_filter_clause kw msg cs).
Proof.
  intros Hk Hall. unfold select_filter_clause.
  destruct cs as [|c cs']; [reflexivity|].
  pose proof (join_loop_balanced _ [] [] Hall eq_refl) as H.
  destruct (join_loop (map render (c :: cs')) [] []) as [[parts params]|e]; [|exact I].
  destruct parts as [|p ps]; [simpl in H |- *; lia|].
  unfold balanced. rewrite count_qmarks_app, count_qmarks_join by reflexivity. lia.
Qed.

Lemma select_list_clause_balanced (kw msg : string) (es : list Expr) :
  count_qmarks kw = 0 -> Forall balanced (map render es) ->
  balanced (select_list_clause kw msg es).
Proof.
  intros Hk Hall. unfold select_list_clause.
  destruct es as [|e es']; [reflexivity|].
  pose proof (collect_loop_balanced _ [] [] Hall eq_refl) as H.
  destruct (collect_loop (map render (e :: es')) [] []) as [[parts params]|err]; [|exact I].
  unfold balanced. rewrite count_qmarks_app, count_qmarks_join by reflexivity. lia.
Qed.

Lemma string_of_uint_noq (d : Decimal.uint) : count_qmarks (NilEmpty.string_of_uint d) = 0.
Proof. induction d; simpl; auto. Qed.

Lemma Z_to_decimal_noq (n : Z) : count_qmarks (Z_to_decimal n) = 0.
Proof.
  unfold Z_to_decimal, NilEmpty.string_of_int.
  destruct (Z.to_int n); simpl; apply string_of_uint_noq.
Qed.

Lemma limit_offset_clause_noq (l o : option Z) : count_qmarks (limit_offset_clause l o) = 0.
Proof.
  destruct l, o; cbn [limit_offset_clause]; rewrite ?count_qmarks_app, ?Z_to_decimal_noq;
    reflexivity.
Qed.

(** X: a SELECT built from expressions without arithmetic chains, and from
    names without [?], has exactly one argument per [?] placeholder. *)
Theorem select_SQL_balanced (b : SelectBuilder) :
  noq (sb_tableName b) = true ->
  forallb math_free (sb_fields b) = true ->
  forallb join_noq (sb_joins b) = true ->
  forallb math_free (sb_conditions b) = true ->
  forallb math_free (sb_groupBys b) = true ->
  forallb math_free (sb_havings b) = true ->
  forallb math_free (sb_orderBys b) = true ->
  balanced (select_SQL b).
Proof.
  destruct b as [fs t js cs xs gs hs os l o]; sb_proj.
  intros Ht Hf Hj Hc Hg Hh Ho.
  apply forallb_balanced in Hf, Hc, Hg, Hh, Ho.
  unfold noq in Ht; apply Nat.eqb_eq in Ht.
  pose proof (select_joins_loop_balanced js "" [] Hj eq_refl) as HJ.
  pose proof (select_filter_clause_balanced " WHERE " "failed to build where condition"
                cs eq_refl Hc) as HW.
  pose proof (select_list_clause_balanced " GROUP BY " "failed to build group by condition"
                gs eq_refl Hg) as HG.
  pose proof (select_filter_clause_balanced " HAVING " "failed to build having condition"
                hs eq_refl Hh) as HH.
  pose proof (select_list_clause_balanced " ORDER BY " "failed to build order by condition"
                os eq_refl Ho) as HO.
  pose proof (limit_offset_clause_noq l o) as HL.
  unfold select_SQL. sb_proj. destruct (String.eqb t ""); [exact I|].
  destruct fs as [|f fs'], xs as [|x xs']; [| exact I | |];
    (destruct (wrap_err _ _) as [[names ?]|e]; cbn [bind_r]; [|exact I]);
    (pose proof (select_fields_loop_balanced names _ [] [] Hf eq_refl) as HF);
    (destruct (select_fields_loop _ _ _ _) as [[fp fq]|e]; cbn [bind_r]; [|exact I]);
    (destruct (select_joins_loop js "" []) as [[jsq jq]|e]; cbn [bind_r]; [|exact I]);
    (destruct (select_filter_clause " WHERE " _ cs) as [[wsq wq]|e]; cbn [bind_r]; [|exact I]);
    (destruct (select_list_clause " GROUP BY " _ gs) as [[gsq gq]|e]; cbn [bind_r]; [|exact I]);
    (destruct (select_filter_clause " HAVING " _ hs) as [[hsq hq]|e]; cbn [bind_r]; [|exact I]);
    (destruct (select_list_clause " ORDER BY " _ os) as [[osq oq]|e]; cbn [bind_r]; [|exact I]);
    unfold balanced in *;
    rewrite !count_qmarks_app, count_qmarks_join by reflexivity; rewrite !length_app;
    cbn [count_qmarks Ascii.eqb Bool.eqb]; lia.
Qed.

Lemma select_SQL_balanced_witness :
  balanced (select_SQL
    (select_Offset 5 (select_Limit 10
      (select_OrderBy [EOrder (EField t_id) true]
        (select_Where [Int64_Eq t_id 3; ENoOp; EIn t_age [VInt64 1; VInt64 2]]
          (select_Join "u" ENoOp (select_From "t" (Select [EField t_id; EField t_age])))))))).
Proof. apply select_SQL_balanced; reflexivity. Defined.

Lemma select_no_limit_Limit (n : Z) (b : SelectBuilder) :
  select_no_limit (select_Limit n b) = select_no_limit b.
Proof. reflexivity. Qed.

Lemma filter_keep_all (l : list string) :
  filter (fun s => negb (stringsContains [] s)) l = l.
Proof. induction l as [|x l IH]; [reflexivity|]. cbn [filter]. rewrite IH. reflexivity. Qed.

(** The statement of [SelectAll().Where(cs)]. *)
Lemma select_SQL_SelectAll (tbl : Table) (cs : list Expr) :
  tbl_name tbl <> "" ->
  select_SQL (select_Where cs (SelectAll tbl))
  = bind_r (select_filter_clause " WHERE " "failed to build where condition" cs)
      (fun '(w, p) =>
         Ok ("SELECT " ++ join ", " (map field_sql (tbl_fields tbl)) ++ " FROM `"
               ++ tbl_name tbl ++ "`" ++ w, p)).
Proof.
  intros Ht.
  unfold select_SQL, select_Where, SelectAll, select_From, Select, fieldsToExprs. sb_proj.
  rewrite (proj2 (String.eqb_neq _ _) Ht). cbn [app].
  assert (Hf : forall fs : list Field, fs <> [] \/ fs = [] ->
    match map EField fs, @nil Expr with
    | [], _ :: _ => Err (ErrMsg "exclude fields without selected fields")
    | _, _ =>
      bind_r (wrap_err "failed to build exclude field" (collect_loop (map render []) [] []))
        (fun '(excludedNames, _) =>
      bind_r (select_fields_loop excludedNames (map render (map EField fs)) [] [])
        (fun '(fieldParts, fieldParams) =>
      bind_r (select_joins_loop [] "" [])
        (fun '(joinSQL, joinParams) =>
      bind_r (select_filter_clause " WHERE " "failed to build where condition" cs)
        (fun '(whereSQL, whereParams) =>
      bind_r (select_list_clause " GROUP BY " "failed to build group by condition" [])
        (fun '(groupSQL, groupParams) =>
      bind_r (select_filter_clause " HAVING " "failed to build having condition" [])
        (fun '(havingSQL, havingParams) =>
      bind_r (select_list_clause " ORDER BY " "failed to build order by condition" [])
        (fun '(orderSQL, orderParams) =>
      Ok ("SELECT " ++ join ", " fieldParts ++ " FROM `" ++ tbl_name tbl ++ "`"
            ++ joinSQL ++ whereSQL ++ groupSQL ++ havingSQL ++ orderSQL
            ++ limit_offset_clause None None,
          (fieldParams ++ joinParams ++ whereParams ++ groupParams
             ++ havingParams ++ orderParams)%list))))))))
    end
    = bind_r (select_filter_clause " WHERE " "failed to build where condition" cs)
      (fun '(w, p) =>
         Ok ("SELECT " ++ join ", " (map field_sql fs) ++ " FROM `"
               ++ tbl_name tbl ++ "`" ++ w, p))).
  { intros fs _.
    assert (Hl : select_fields_loop [] (map render (map EField fs)) [] []
                 = Ok (map field_sql fs, [])).
    { rewrite select_fields_loop_fields, filter_keep_all. reflexivity. }
    change (map render (@nil Expr)) with (@nil (Result rendered)).
    cbn [wrap_err collect_loop bind_r select_joins_loop select_list_clause
         select_filter_clause limit_offset_clause].
    rewrite Hl. cbn [bind_r].
    destruct (map EField fs) as [|x xs];
      destruct (select_filter_clause _ _ cs) as [[w p]|e]; cbn [bind_r]; try reflexivity;
      rewrite ?app_nil_r; str_norm; reflexivity. }
  apply Hf. destruct (tbl_fields tbl); [right|left]; congruence.
Qed.

(** A field [ToConditions] skips: embedded, or a nil pointer. *)
Definition cond_skipped (f : CField) : bool := cf_Anonymous f || is_nil_ptr (cf_slot f).

Lemma to_conditions_loop_skipped (c2s : string -> string) (iface : GoValue -> value)
    (fs : list CField) (acc : list Expr) :
  forallb cond_skipped fs = true -> to_conditions_loop c2s iface fs acc = Returns acc.
Proof.
  induction fs as [|f fs IH]; intros H; [reflexivity|].
  cbn [forallb] in H. apply andb_true_iff in H as [Hf Hfs].
  unfold cond_skipped in Hf. cbn [to_conditions_loop].
  destruct (cf_Anonymous f); [apply IH, Hfs|].
  destruct (cf_slot f) as [[v|]|v]; cbn in Hf |- *; try discriminate. apply IH, Hfs.
Qed.

Lemma to_conditions_loop_panics (c2s : string -> string) (iface : GoValue -> value)
    (fs : list CField) (acc : list Expr) :
  (exists m, to_conditions_loop c2s iface fs acc = Panics m) <->
  Exists (fun f => cf_Anonymous f = false /\ slot_value (cf_slot f) <> None
                   /\ cf_exported f = false) fs.
Proof.
  revert acc.
  induction fs as [|f fs IH]; intros acc; cbn [to_conditions_loop].
  - split; [intros [m Hm]; discriminate|intros H; inversion H].
  - rewrite Exists_cons.
    destruct (cf_Anonymous f) eqn:Ea.
    + rewrite IH. split; [intros H; right; exact H|].
      intros [[Ha _]|H]; [discriminate|exact H].
    + destruct (slot_value (cf_slot f)) as [v|] eqn:Es.
      * destruct (cf_exported f) eqn:Ee; cbn [negb].
        -- rewrite IH. split; [intros H; right; exact H|].
           intros [[_ [_ He]]|H]; [discriminate|exact H].
        -- split; [intros _; left; repeat split; congruence|intros _; eexists; reflexivity].
      * rewrite IH. split; [intros H; right; exact H|].
        intros [[_ [Hs _]]|H]; [contradiction|exact H].
Qed.

Lemma to_conditions_loop_shape (c2s : string -> string) (iface : GoValue -> value)
    (fs : list CField) (acc cs : list Expr) :
  to_conditions_loop c2s iface fs acc = Returns cs ->
  exists new, cs = (acc ++ new)%list
    /\ length new = length (filter (fun f => negb (cond_skipped f)) fs)
    /\ Forall (fun c => exists f v, In f fs /\ cf_exported f = true
                 /\ slot_value (cf_slot f) = Some v
                 /\ render c = Ok ("`" ++ c2s (cf_Name f) ++ "` = ?", [iface v])) new.
Proof.
  revert acc.
  induction fs as [|f fs IH]; intros acc H; cbn [to_conditions_loop] in H.
  - injection H as <-. exists []. rewrite app_nil_r. repeat split; constructor.
  - unfold cond_skipped at 1. cbn [filter].
    destruct (cf_Anonymous f) eqn:Ea; cbn [orb negb].
    + destruct (IH acc H) as [new [Hc [Hl Hall]]]. exists new. repeat split; auto.
      eapply Forall_impl; [|exact Hall]. intros c [g [v [Hg Hr]]]. exists g, v.
      split; [right; exact Hg|exact Hr].
    + destruct (cf_slot f) as [[v|]|v] eqn:Es; cbn [slot_value is_nil_ptr negb] in H |- *.
      1, 3:
        destruct (cf_exported f) eqn:Ee; cbn [negb] in H; [|discriminate];
        destruct (IH _ H) as [new [Hc [Hl Hall]]];
        exists (ECustom (Ok ("`" ++ c2s (cf_Name f) ++ "` = ?", [iface v])) :: new);
        (split; [rewrite Hc, <- app_assoc; reflexivity|]);
        (split; [cbn [length]; rewrite Hl; reflexivity|]);
        constructor;
        [ exists f, v; repeat split; [left; reflexivity|exact Ee|rewrite Es; reflexivity]
        | eapply Forall_impl; [|exact Hall]; intros c [g [w [Hg Hr]]]; exists g, w;
          split; [right; exact Hg|exact Hr] ].
      destruct (IH acc H) as [new [Hc [Hl Hall]]]. exists new. repeat split; auto.
      eapply Forall_impl; [|exact Hall]. intros c [g [w [Hg Hr]]]. exists g, w.
      split; [right; exact Hg|exact Hr].
Qed.

(** The condition [ToConditions] writes for a field with a value. *)
Definition set_field_cond (c2s : string -> string) (iface : GoValue -> value) (f : CField)
    : option Expr :=
  match slot_value (cf_slot f) with
  | Some v => Some (ECustom (Ok ("`" ++ c2s (cf_Name f) ++ "` = ?", [iface v])))
  | None => None
  end.

Lemma to_conditions_loop_exact (c2s : string -> string) (iface : GoValue -> value)
    (fs : list CField) (acc cs : list Expr) :
  to_conditions_loop c2s iface fs acc = Returns cs ->
  exists new, cs = (acc ++ new)%list
    /\ map Some new = map (set_field_cond c2s iface) (filter (fun f => negb (cond_skipped f)) fs)
    /\ Forall (fun f => cf_exported f = true) (filter (fun f => negb (cond_skipped f)) fs).
Proof.
  revert acc.
  induction fs as [|f fs IH]; intros acc H; cbn [to_conditions_loop] in H.
  - injection H as <-. exists []. rewrite app_nil_r. repeat split; constructor.
  - cbn [filter].
    change (cond_skipped f) with (cf_Anonymous f || is_nil_ptr (cf_slot f)).
    destruct (cf_Anonymous f) eqn:Ea; cbn [orb negb].
    + exact (IH acc H).
    + destruct (cf_slot f) as [[v|]|v] eqn:Es; cbn [slot_value is_nil_ptr negb] in H |- *.
      1, 3:
        destruct (cf_exported f) eqn:Ee; cbn [negb] in H; [|discriminate];
        destruct (IH _ H) as [new [Hc [Hm Hall]]];
        exists (ECustom (Ok ("`" ++ c2s (cf_Name f) ++ "` = ?", [iface v])) :: new);
        (split; [rewrite Hc, <- app_assoc; reflexivity|]);
        (split; [cbn [map]; rewrite Hm; unfold set_field_cond at 2; rewrite Es; reflexivity|]);
        constructor; assumption.
      exact (IH acc H).
Qed.

Section OrmProps.

Variable Row : Type.
Variable query_res : string -> list value -> Result (list Row).
Variable camel_to_snake : string -> string.
Variable iface : GoValue -> value.
Variable now : Z.
Variable exec_err : string -> list value -> option error.

(** X: [ToConditions] panics exactly when the condition struct has a set
    field (not embedded, not a nil pointer) that is not exported. *)
Theorem ToConditions_panics_iff (fs : list CField) :
  (exists m, ToConditions camel_to_snake iface (Some (CStruct fs)) = Panics m) <->
  Exists (fun f => cf_Anonymous f = false /\ slot_value (cf_slot f) <> None
                   /\ cf_exported f = false) fs.
Proof.
  rewrite <- (to_conditions_loop_panics camel_to_snake iface fs []).
  unfold ToConditions.
  destruct (to_conditions_loop camel_to_snake iface fs []) as [cs|m].
  - split; intros [m Hm]; discriminate.
  - split; intros _; exists m; reflexivity.
Qed.

(** X: the conditions [ToConditions] builds are exactly one per set field
    (not embedded, not a nil pointer), in field order, each [`column` = ?]
    with the field's value as its single argument; every set field is
    exported. *)
Theorem ToConditions_one_per_set_field (fs : list CField) (cs : list Expr) :
  ToConditions camel_to_snake iface (Some (CStruct fs)) = Returns (Ok cs) ->
  map Some cs = map (set_field_cond camel_to_snake iface)
                    (filter (fun f => negb (cond_skipped f)) fs)
  /\ Forall (fun f => cf_exported f = true) (filter (fun f => negb (cond_skipped f)) fs).
Proof.
  unfold ToConditions. intros H.
  destruct (to_conditions_loop camel_to_snake iface fs []) as [cs'|m] eqn:E; [|discriminate].
  injection H as <-.
  destruct (to_conditions_loop_exact _ _ _ _ _ E) as [new [Hc [Hm Hall]]].
  cbn [app] in Hc. subst cs'. split; assumption.
Qed.

(** X: [DeleteBy] and [UpdateBy] with a condition whose fields are all nil
    pointers or embedded refuse with "requires conditions" and send nothing
    to the engine. *)
Theorem by_condition_all_nil_refused (tbl : Table) (fs : list CField) (data : list PField) :
  forallb cond_skipped fs = true ->
  DeleteBy camel_to_snake iface exec_err tbl (Some (CStruct fs))
    = Returns ([], Err (ErrMsg "requires conditions"))
  /\ UpdateBy camel_to_snake iface now exec_err tbl (Some (CStruct fs)) (Some data)
    = Returns ([], Err (ErrMsg "requires conditions")).
Proof.
  intros H. unfold DeleteBy, UpdateBy, with_conditions, ToConditions.
  rewrite (to_conditions_loop_skipped _ _ fs [] H). split; reflexivity.
Qed.

(** X: [GetBy] with a condition whose fields are all nil pointers or
    embedded reads the table without a WHERE clause and returns its first
    row. *)
Theorem GetBy_all_nil_unfiltered (tbl : Table) (fs : list CField) :
  forallb cond_skipped fs = true -> tbl_name tbl <> "" ->
  let q := "SELECT " ++ join ", " (map field_sql (tbl_fields tbl)) ++ " FROM `"
             ++ tbl_name tbl ++ "` LIMIT 1" in
  exists res, GetBy Row query_res camel_to_snake iface tbl (Some (CStruct fs))
                = Returns ([CQuery q []], res)
    /\ (forall r rs, query_res q [] = Ok (r :: rs) -> res = Ok r)
    /\ (query_res q [] = Ok [] -> res = Err (ErrMsg "data not found")).
Proof.
  intros H Ht q.
  unfold GetBy, with_conditions, ToConditions.
  rewrite (to_conditions_loop_skipped _ _ fs [] H).
  unfold get.
  assert (Hs : select_SQL (select_Limit 1 (select_Where [] (SelectAll tbl))) = Ok (q, [])).
  { rewrite select_SQL_limit_suffix, select_no_limit_Limit.
    change (select_no_limit (select_Where [] (SelectAll tbl))) with (select_Where [] (SelectAll tbl)).
    rewrite select_SQL_SelectAll by exact Ht. cbn [select_filter_clause bind_r].
    unfold q. cbn [sb_limit sb_offset select_Limit limit_offset_clause]. str_norm. reflexivity. }
  change (select_Limit 1 (select_Where [] (select_From (tbl_name tbl)
            (Select (fieldsToExprs (tbl_fields tbl))))))
    with (select_Limit 1 (select_Where [] (SelectAll tbl))).
  rewrite Hs.
  eexists. split; [reflexivity|].
  split; [intros r rs Hq; rewrite Hq; reflexivity|intros Hq; rewrite Hq; reflexivity].
Qed.

(** X: [QueryOne] sets LIMIT 1 on the builder it holds, overriding an
    earlier [Limit]; the statement it sends is the builder's without LIMIT
    and OFFSET, with [ LIMIT 1] appended, or [ LIMIT o,1] when the builder
    has an offset [o]; a later [Query] on the same builder sends that
    statement again. *)
Theorem QueryOne_sticky_limit (b : SelectBuilder) (n : Z) (s : string) (q : list value) :
  select_SQL (select_no_limit b) = Ok (s, q) ->
  let sent := s ++ limit_offset_clause (Some 1%Z) (sb_offset b) in
  (exists res, snd (QueryOne Row query_res (select_Limit n b))
                 = Returns ([CQuery sent q], res))
  /\ orm_select_Query Row query_res (fst (QueryOne Row query_res (select_Limit n b)))
     = QuerySQL Row query_res sent q
  /\ (sb_offset b = None -> sent = s ++ " LIMIT 1")
  /\ (forall o, sb_offset b = Some o -> sent = s ++ " LIMIT " ++ Z_to_decimal o ++ ",1").
Proof.
  intros H sent.
  assert (HS : select_SQL (select_Limit 1 (select_Limit n b)) = Ok (sent, q)).
  { rewrite select_SQL_limit_suffix, !select_no_limit_Limit, H. reflexivity. }
  unfold QueryOne. cbn [fst snd]. rewrite HS. split; [|split; [|split]].
  - unfold QuerySQL, wrap_err.
    destruct (query_res sent q) as [[|r rs]|e]; eexists; reflexivity.
  - unfold orm_select_Query. rewrite HS. reflexivity.
  - intros Ho. unfold sent. rewrite Ho. reflexivity.
  - intros o Ho. unfold sent. rewrite Ho. reflexivity.
Qed.

(** X: [SelectAll().Where(cs).RequireOne()] and [get(cs)] send the same
    statement and return the same row; they differ only in their error
    messages. *)
Theorem RequireOne_agrees_with_get (tbl : Table) (cs : list Expr) :
  exists calls r1 r2,
    snd (RequireOne Row query_res (select_Where cs (SelectAll tbl))) = Returns (calls, r1)
    /\ get Row query_res tbl cs = Returns (calls, r2)
    /\ (forall x, r1 = Ok x <-> r2 = Ok x).
Proof.
  unfold RequireOne, QueryOne, get, SelectAll. cbn [fst snd].
  destruct (select_SQL _) as [[q a]|e].
  - unfold QuerySQL, wrap_err.
    destruct (query_res q a) as [[|r rs]|e]; do 3 eexists; (split; [reflexivity|]);
      (split; [reflexivity|]); intros x; split; intros Hx; try discriminate; exact Hx.
  - do 3 eexists; (split; [reflexivity|]); (split; [reflexivity|]).
    intros x; split; intros Hx; discriminate.
Qed.

(** X: [GetByID] with a non-zero id on a table with an [id] column sends
    one statement, the table's columns filtered on [`id` = ?] with LIMIT 1
    and the id as its argument, and returns the first row it gets. *)
Theorem GetByID_statement (tbl : Table) (id : Z) :
  id <> 0%Z -> has_id_field tbl = true -> tbl_name tbl <> "" ->
  let q := "SELECT " ++ join ", " (map field_sql (tbl_fields tbl)) ++ " FROM `"
             ++ tbl_name tbl ++ "` WHERE `id` = ? LIMIT 1" in
  exists res, GetByID (get Row query_res tbl) tbl id = Returns ([CQuery q [VInt64 id]], res)
    /\ (forall r rs, query_res q [VInt64 id] = Ok (r :: rs) -> res = Ok r)
    /\ (query_res q [VInt64 id] = Ok [] -> res = Err (ErrMsg "data not found")).
Proof.
  intros Hid Hhas Ht q.
  unfold GetByID, toIDCondition. unfold has_id_field in Hhas.
  rewrite (proj2 (Z.eqb_neq _ _) Hid), Hhas.
  unfold get.
  assert (Hs : select_SQL (select_Limit 1 (select_Where [Int64_Eq (mkField "id" "" KInt64) id]
                                             (SelectAll tbl)))
               = Ok (q, [VInt64 id])).
  { rewrite select_SQL_limit_suffix, select_no_limit_Limit.
    change (select_no_limit (select_Where [Int64_Eq (mkField "id" "" KInt64) id] (SelectAll tbl)))
      with (select_Where [Int64_Eq (mkField "id" "" KInt64) id] (SelectAll tbl)).
    rewrite select_SQL_SelectAll by exact Ht. cbn [select_filter_clause bind_r].
    unfold q. cbn. str_norm. reflexivity. }
  change (select_Limit 1 (select_Where [Int64_Eq (mkField "id" "" KInt64) id]
            (select_From (tbl_name tbl) (Select (fieldsToExprs (tbl_fields tbl))))))
    with (select_Limit 1 (select_Where [Int64_Eq (mkField "id" "" KInt64) id] (SelectAll tbl))).
  rewrite Hs.
  eexists. split; [reflexivity|].
  split; [intros r rs Hq; rewrite Hq; reflexivity|intros Hq; rewrite Hq; reflexivity].
Qed.

(** X: [DeleteByID] with a non-zero id on a table with an [id] column
    sends exactly [DELETE FROM `t` WHERE `id` = ?] with the id as its
    argument. *)
Theorem DeleteByID_statement (tbl : Table) (id : Z) :
  id <> 0%Z -> has_id_field tbl = true -> tbl_name tbl <> "" ->
  let q := "DELETE FROM `" ++ tbl_name tbl ++ "` WHERE `id` = ?" in
  DeleteByID exec_err tbl id
  = Returns ([CExec q [VInt64 id]],
             match exec_err q [VInt64 id] with
             | Some e => Err (ErrWrap "failed to execute DeleteByID" e)
             | None => Ok tt
             end).
Proof.
  intros Hid Hhas Ht q.
  unfold DeleteByID, toIDCondition. unfold has_id_field in Hhas.
  rewrite (proj2 (Z.eqb_neq _ _) Hid), Hhas.
  unfold deleteBy, delete_SQL, delete_Where, DeleteFrom.
  cbn [db_tableName db_conditions db_limit app].
  rewrite (proj2 (String.eqb_neq _ _) Ht).
  cbn. unfold q. str_norm. reflexivity.
Qed.

End OrmProps.

(** Concrete engine and reflection used by the examples. *)
Definition ex_rows (q : string) (args : list value) : Result (list nat) := Ok [7%nat; 8%nat].
Definition ex_iface (v : GoValue) : value :=
  match v with
  | GString s => VString s
  | GInt z | GInt64 z => VInt64 z
  | _ => VBool false
  end.
Definition ex_exec (q : string) (args : list value) : option error := None.
Definition ex_table : Table := mkTable "t" [t_id; t_age].
Definition ex_cond_fields : list CField :=
  [mkCField "Id" false true (SPtr (Some (GInt64 5))); mkCField "Age" false true (SPtr None)].

Lemma ToConditions_one_per_set_field_witness :
  ToConditions (fun s => s) ex_iface (Some (CStruct ex_cond_fields))
    = Returns (Ok [ECustom (Ok ("`Id` = ?", [VInt64 5]))])
  /\ map Some [ECustom (Ok ("`Id` = ?", [VInt64 5]))]
     = map (set_field_cond (fun s => s) ex_iface)
           (filter (fun f => negb (cond_skipped f)) ex_cond_fields).
Proof.
  assert (H : ToConditions (fun s => s) ex_iface (Some (CStruct ex_cond_fields))
              = Returns (Ok [ECustom (Ok ("`Id` = ?", [VInt64 5]))])) by reflexivity.
  split; [exact H|].
  exact (proj1 (ToConditions_one_per_set_field (fun s => s) ex_iface _ _ H)).
Defined.

Lemma by_condition_all_nil_refused_witness :
  DeleteBy (fun s => s) ex_iface ex_exec ex_table
    (Some (CStruct [mkCField "Age" false true (SPtr None)]))
  = Returns ([], Err (ErrMsg "requires conditions")).
Proof.
  exact (proj1 (by_condition_all_nil_refused (fun s => s) ex_iface 0 ex_exec ex_table
                  [mkCField "Age" false true (SPtr None)] [] eq_refl)).
Defined.

Lemma GetBy_all_nil_unfiltered_witness :
  exists res, GetBy nat ex_rows (fun s => s) ex_iface ex_table
                (Some (CStruct [mkCField "Age" false true (SPtr None)]))
              = Returns ([CQuery "SELECT `t`.`id`, `t`.`age` FROM `t` LIMIT 1" []], res)
              /\ res = Ok 7%nat.
Proof.
  assert (Ht : tbl_name ex_table <> "") by discriminate.
  destruct (GetBy_all_nil_unfiltered nat ex_rows (fun s => s) ex_iface ex_table
              [mkCField "Age" false true (SPtr None)] eq_refl Ht) as [res [H [Hr _]]].
  exists res. split; [exact H|]. exact (Hr 7%nat [8%nat] eq_refl).
Defined.

Lemma QueryOne_sticky_limit_witness :
  let b := select_Offset 20 (select_Where [Int64_Eq t_id 3] (SelectAll ex_table)) in
  orm_select_Query nat ex_rows (fst (QueryOne nat ex_rows (select_Limit 50 b)))
  = QuerySQL nat ex_rows "SELECT `t`.`id`, `t`.`age` FROM `t` WHERE `t`.`id` = ? LIMIT 20,1"
      [VInt64 3].
Proof.
  intros b.
  exact (proj1 (proj2 (QueryOne_sticky_limit nat ex_rows b 50
                  "SELECT `t`.`id`, `t`.`age` FROM `t` WHERE `t`.`id` = ?" [VInt64 3]
                  eq_refl))).
Defined.

Lemma GetByID_statement_witness :
  exists res, GetByID (get nat ex_rows ex_table) ex_table 5
    = Returns ([CQuery "SELECT `t`.`id`, `t`.`age` FROM `t` WHERE `id` = ? LIMIT 1" [VInt64 5]],
               res)
    /\ res = Ok 7%nat.
Proof.
  assert (Hid : 5%Z <> 0%Z) by discriminate.
  assert (Ht : tbl_name ex_table <> "") by discriminate.
  destruct (GetByID_statement nat ex_rows ex_table 5 Hid eq_refl Ht) as [res [H [Hr _]]].
  exists res. split; [exact H|]. exact (Hr 7%nat [8%nat] eq_refl).
Defined.

Lemma DeleteByID_statement_witness :
  DeleteByID ex_exec ex_table 5
  = Returns ([CExec "DELETE FROM `t` WHERE `id` = ?" [VInt64 5]], Ok tt).
Proof.
  assert (Hid : 5%Z <> 0%Z) by discriminate.
  assert (Ht : tbl_name ex_table <> "") by discriminate.
  exact (DeleteByID_statement ex_exec ex_table 5 Hid eq_refl Ht).
Defined.

(* ---- UPDATE and DELETE ---- *)

Lemma update_where_loop_snoc (first : bool) (cs : list Expr) (c : Expr) (sb : string)
    (params : list value) :
  update_where_loop first (cs ++ [c]) sb params =
  bind_r (update_where_loop first cs sb params)
    (fun '(s, p) => update_where_loop (first && match cs with [] => true | _ => false end)
                      [c] s p).
Proof.
  revert first sb params.
  induction cs as [|c0 cs IH]; intros first sb params.
  - cbn [app update_where_loop bind_r]. rewrite andb_true_r. reflexivity.
  - cbn [app update_where_loop]. destruct (render c0) as [[s0 p0]|e]; [|reflexivity].
    rewrite IH. rewrite andb_false_r. cbn [andb]. reflexivity.
Qed.

(** X: in an UPDATE, a WHERE condition that renders to nothing is not
    skipped: it leaves a dangling [ WHERE ] or [ AND ] at the end of the
    statement. *)
Theorem update_where_empty_condition_dangles (b : UpdateBuilder) (c : Expr)
    (p : list value) (s : string) (q : list value) :
  render c = Ok ("", p) -> update_SQL b = Ok (s, q) ->
  update_SQL (update_Where [c] b)
  = Ok (s ++ match ub_conditions b with [] => " WHERE " | _ => " AND " end, (q ++ p)%list).
Proof.
  intros Hc H. destruct b as [t us cs]. unfold update_SQL, update_Where in *.
  cbn [ub_tableName ub_updates ub_conditions] in *.
  destruct (String.eqb t ""); [discriminate|].
  destruct us as [|u us]; [discriminate|].
  destruct cs as [|c0 cs].
  - injection H as <- <-. cbn [app update_where_loop]. rewrite Hc.
    cbn [update_where_loop]. rewrite str_app_nil_r. reflexivity.
  - cbn [app]. rewrite (update_where_loop_snoc true (c0 :: cs) c), H.
    cbn [bind_r andb update_where_loop].
    rewrite Hc. cbn [update_where_loop]. rewrite str_app_nil_r. reflexivity.
Qed.

Lemma update_where_empty_condition_dangles_witness :
  let b := update_Where [Int64_Eq t_id 1] (update_Set t_age (XLit (VInt64 3)) (Update "t")) in
  update_SQL b = Ok ("UPDATE `t` SET `age`=? WHERE `t`.`id` = ?", [VInt64 3; VInt64 1])
  /\ update_SQL (update_Where [ENoOp] b)
     = Ok ("UPDATE `t` SET `age`=? WHERE `t`.`id` = ? AND ", [VInt64 3; VInt64 1]).
Proof.
  intros b.
  assert (H : update_SQL b = Ok ("UPDATE `t` SET `age`=? WHERE `t`.`id` = ?", [VInt64 3; VInt64 1]))
    by reflexivity.
  split; [exact H|].
  rewrite (update_where_empty_condition_dangles b ENoOp [] _ _ eq_refl H). reflexivity.
Defined.

(** A chain of [Set] calls on an UPDATE builder, in source order. *)
Definition update_Sets (sets : list (Field * Expression)) (b : UpdateBuilder) : UpdateBuilder :=
  fold_left (fun b' '(f, x) => update_Set f x b') sets b.

(** A SET value whose SQL holds no [?] of its own. *)
Definition expression_noq (x : Expression) : bool :=
  match x with
  | XLit _ => true
  | XFieldOp f op _ => field_noq f && noq op
  end.

Definition set_noq (fx : Field * Expression) : bool :=
  noq (FieldName (fst fx)) && expression_noq (snd fx).

Lemma sum_qmarks_map_one {A} (g : A -> string) (l : list A) :
  Forall (fun a => count_qmarks (g a) = 1) l -> sum_qmarks (map g l) = length l.
Proof. induction 1 as [|a l Ha _ IH]; simpl; [reflexivity|rewrite Ha, IH; reflexivity]. Qed.

Lemma update_Sets_updates (sets : list (Field * Expression)) (b : UpdateBuilder) :
  ub_tableName (update_Sets sets b) = ub_tableName b
  /\ ub_conditions (update_Sets sets b) = ub_conditions b
  /\ exists new, ub_updates (update_Sets sets b) = (ub_updates b ++ new)%list
       /\ length new = length sets
       /\ (forallb set_noq sets = true ->
           Forall (fun u => count_qmarks (update_set_part u) = 1) new).
Proof.
  revert b. induction sets as [|[f x] sets IH]; intros b.
  - split; [reflexivity|]. split; [reflexivity|].
    exists []. rewrite app_nil_r. repeat split; constructor.
  - cbn [update_Sets fold_left]. fold (update_Sets sets (update_Set f x b)).
    destruct (IH (update_Set f x b)) as [Ht [Hc [new [Hu [Hl Hq]]]]].
    unfold update_Set in *.
    destruct (ToExpressionSQL x) as [xs xv] eqn:Ex.
    cbn [ub_tableName ub_conditions ub_updates] in Ht, Hc, Hu.
    split; [exact Ht|]. split; [exact Hc|].
    exists (mkUExpr f ("=" ++ xs) xv :: new).
    split; [rewrite Hu, <- app_assoc; reflexivity|].
    split; [cbn [length]; rewrite Hl; reflexivity|].
    intros Hs. cbn [forallb] in Hs. apply andb_true_iff in Hs as [H1 H2].
    constructor; [|apply Hq, H2].
    unfold set_noq, expression_noq in H1. cbn [fst snd] in H1.
    unfold update_set_part. cbn [u_field u_expr].
    destruct x as [v|g op v]; injection Ex as <- <-; split_true H1; noq_zero;
      repeat (rewrite count_qmarks_app || cbn [count_qmarks Ascii.eqb Bool.eqb]); lia.
Qed.

Lemma update_where_loop_balanced (first : bool) (cs : list Expr) (sb : string)
    (params : list value) :
  forallb math_free cs = true -> count_qmarks sb = length params ->
  balanced (update_where_loop first cs sb params).
Proof.
  revert first sb params.
  induction cs as [|c cs IH]; intros first sb params Hf Hp; [exact Hp|].
  cbn [forallb] in Hf. apply andb_true_iff in Hf as [Hc Hcs].
  pose proof (math_free_balanced c Hc) as Hb.
  cbn [update_where_loop]. destruct (render c) as [[s p]|e]; [|exact I].
  cbn in Hb. apply IH; [exact Hcs|].
  destruct first; rewrite !count_qmarks_app, length_app; cbn [count_qmarks Ascii.eqb Bool.eqb]; lia.
Qed.

(** X: an UPDATE built with [Set] (literals or field operations such as
    [Increment]) and [Where] conditions without arithmetic chains has one
    argument per [?] placeholder, also when a condition renders to
    nothing. *)
Theorem update_SQL_balanced (t : string) (sets : list (Field * Expression))
    (cs : list Expr) :
  noq t = true -> forallb set_noq sets = true -> forallb math_free cs = true ->
  balanced (update_SQL (update_Where cs (update_Sets sets (Update t)))).
Proof.
  intros Ht Hs Hc.
  destruct (update_Sets_updates sets (Update t)) as [HT [HC [new [Hu [Hl Hq]]]]].
  specialize (Hq Hs).
  unfold update_SQL, update_Where. cbn [ub_tableName ub_updates ub_conditions].
  rewrite HT, HC, Hu. cbn [ub_tableName ub_updates ub_conditions Update app].
  unfold noq in Ht. apply Nat.eqb_eq in Ht.
  destruct (String.eqb t ""); [exact I|].
  destruct new as [|u us]; [exact I|].
  assert (Hsum : count_qmarks ("UPDATE `" ++ t ++ "` SET " ++ join ", " (map update_set_part (u :: us)))
                 = length (map u_value (u :: us))).
  { rewrite !count_qmarks_app, count_qmarks_join by reflexivity.
    rewrite sum_qmarks_map_one by exact Hq. rewrite length_map, Ht. reflexivity. }
  destruct cs as [|c cs']; [exact Hsum|].
  apply update_where_loop_balanced; [exact Hc|].
  rewrite count_qmarks_app, Hsum. cbn [count_qmarks Ascii.eqb Bool.eqb]. apply Nat.add_0_r.
Qed.

Lemma update_SQL_balanced_witness :
  balanced (update_SQL (update_Where [Int64_Eq t_id 1; ENoOp]
              (update_Sets [(t_age, Increment t_age 2); (t_id, XLit (VInt64 9))] (Update "t")))).
Proof. apply update_SQL_balanced; reflexivity. Defined.

(** X: DELETE's [Limit] only appends [ LIMIT n] to the statement. *)
Theorem delete_limit_suffix (b : DeleteBuilder) (n : Z) (s : string) (q : list value) :
  db_limit b = None -> delete_SQL b = Ok (s, q) ->
  delete_SQL (delete_Limit n b) = Ok (s ++ " LIMIT " ++ Z_to_decimal n, q).
Proof.
  intros Hl H. destruct b as [t cs l]; cbn [db_limit] in Hl; subst l.
  unfold delete_SQL, delete_Limit in *. cbn [db_tableName db_conditions db_limit] in *.
  destruct (String.eqb t ""); [discriminate|].
  destruct cs as [|c cs].
  - injection H as <- <-. rewrite str_app_nil_r. reflexivity.
  - destruct (delete_where_loop true (c :: cs) _ []) as [[s' q']|e]; cbn [bind_r] in *;
      [|discriminate].
    injection H as <- <-. rewrite str_app_nil_r. reflexivity.
Qed.

Lemma delete_limit_suffix_witness :
  delete_SQL (delete_Limit 10 (delete_Where [Int64_Eq t_id 1] (DeleteFrom "t")))
  = Ok ("DELETE FROM `t` WHERE `t`.`id` = ? LIMIT 10", [VInt64 1]).
Proof.
  exact (delete_limit_suffix (delete_Where [Int64_Eq t_id 1] (DeleteFrom "t")) 10
           "DELETE FROM `t` WHERE `t`.`id` = ?" [VInt64 1] eq_refl eq_refl).
Defined.

Lemma delete_where_loop_balanced (first : bool) (cs : list Expr) (sb : string)
    (params : list value) :
  forallb math_free cs = true -> count_qmarks sb = length params ->
  balanced (delete_where_loop first cs sb params).
Proof.
  revert first sb params.
  induction cs as [|c cs IH]; intros first sb params Hf Hp; [exact Hp|].
  cbn [forallb] in Hf. apply andb_true_iff in Hf as [Hc Hcs].
  pose proof (math_free_balanced c Hc) as Hb.
  cbn [delete_where_loop]. destruct (render c) as [[s p]|e]; [|exact I].
  cbn in Hb.
  destruct (String.eqb s ""); apply IH; try exact Hcs;
    destruct first; rewrite ?count_qmarks_app, ?length_app; cbn [count_qmarks Ascii.eqb Bool.eqb]; lia.
Qed.

(** X: a DELETE whose conditions have no arithmetic chains has one argument
    per [?] placeholder, with or without a LIMIT. *)
Theorem delete_SQL_balanced (b : DeleteBuilder) :
  noq (db_tableName b) = true -> forallb math_free (db_conditions b) = true ->
  balanced (delete_SQL b).
Proof.
  destruct b as [t cs l]. cbn [db_tableName db_conditions]. intros Ht Hc.
  unfold noq in Ht. apply Nat.eqb_eq in Ht.
  assert (Hl : count_qmarks (match l with Some n => " LIMIT " ++ Z_to_decimal n | None => "" end) = 0).
  { destruct l; [rewrite count_qmarks_app, Z_to_decimal_noq|]; reflexivity. }
  unfold delete_SQL. cbn [db_tableName db_conditions db_limit].
  destruct (String.eqb t ""); [exact I|].
  destruct cs as [|c cs'].
  - unfold balanced. rewrite !count_qmarks_app, Ht, Hl. reflexivity.
  - pose proof (delete_where_loop_balanced true (c :: cs') (("DELETE FROM `" ++ t ++ "`") ++ " WHERE ") []
                  Hc) as HB.
    destruct (delete_where_loop true (c :: cs') _ []) as [[s q]|e]; [|exact I].
    cbn [bind_r]. unfold balanced in *. rewrite count_qmarks_app, Hl, Nat.add_0_r.
    apply HB. rewrite !count_qmarks_app, Ht. reflexivity.
Qed.

Lemma delete_SQL_balanced_witness :
  balanced (delete_SQL (delete_Limit 3 (delete_Where [Int64_Eq t_id 1; ENoOp] (DeleteFrom "t")))).
Proof. apply delete_SQL_balanced; reflexivity. Defined.

(** A chain of [Set] calls on the expression-valued INSERT builder. *)
Definition xsets (sets : list (Field * Expression))
    (b : InsertIntoExpression.InsertIntoBuilder) : InsertIntoExpression.InsertIntoBuilder :=
  fold_left (fun b' '(f, x) => InsertIntoExpression.insert_Set f x b') sets b.

(** The entry one [Set] call stores. *)
Definition xupdate (fx : Field * Expression) : InsertIntoExpression.updateExpr :=
  let '(s, v) := ToExpressionSQL (snd fx) in InsertIntoExpression.mkUpdateExpr (fst fx) s v.

Definition is_field_op (x : Expression) : bool :=
  match x with
  | XFieldOp _ _ _ => true
  | XLit _ => false
  end.

Lemma xsets_updates (sets : list (Field * Expression)) (b : InsertIntoExpression.InsertIntoBuilder) :
  InsertIntoExpression.xb_tableName (xsets sets b) = InsertIntoExpression.xb_tableName b
  /\ InsertIntoExpression.xb_updates (xsets sets b)
     = (InsertIntoExpression.xb_updates b ++ map xupdate sets)%list.
Proof.
  revert b. induction sets as [|[f x] sets IH]; intros b.
  - split; [reflexivity|]. rewrite app_nil_r. reflexivity.
  - cbn [xsets fold_left]. fold (xsets sets (InsertIntoExpression.insert_Set f x b)).
    destruct (IH (InsertIntoExpression.insert_Set f x b)) as [Ht Hu].
    rewrite Ht, Hu. cbn [map].
    assert (Hx : xupdate (f, x) = InsertIntoExpression.mkUpdateExpr f (fst (ToExpressionSQL x))
                                   (snd (ToExpressionSQL x)))
      by (unfold xupdate; cbn [snd fst]; destruct (ToExpressionSQL x); reflexivity).
    rewrite Hx. unfold InsertIntoExpression.insert_Set.
    destruct (ToExpressionSQL x) as [s v]. cbn [fst snd].
    cbn [InsertIntoExpression.xb_tableName InsertIntoExpression.xb_updates].
    split; [reflexivity|]. rewrite <- app_assoc. reflexivity.
Qed.

Lemma xupdate_qmarks (fx : Field * Expression) :
  set_noq fx = true ->
  count_qmarks (InsertIntoExpression.set_part (xupdate fx))
  + (if is_field_op (snd fx) then 1 else 0) = 1.
Proof.
  destruct fx as [f [v|g op v]]; unfold set_noq, expression_noq; cbn [fst snd];
    intros H; split_true H; noq_zero;
    unfold InsertIntoExpression.set_part, xupdate; cbn [snd fst ToExpressionSQL is_field_op];
    cbn [InsertIntoExpression.xu_field InsertIntoExpression.xu_expr];
    cbn [append String.eqb];
    repeat (rewrite count_qmarks_app || cbn [count_qmarks Ascii.eqb Bool.eqb]); lia.
Qed.

Lemma xupdates_qmarks (sets : list (Field * Expression)) :
  forallb set_noq sets = true ->
  sum_qmarks (map InsertIntoExpression.set_part (map xupdate sets))
  + length (filter is_field_op (map snd sets)) = length sets.
Proof.
  induction sets as [|fx sets IH]; intros H; [reflexivity|].
  cbn [forallb] in H. apply andb_true_iff in H as [H1 H2].
  pose proof (xupdate_qmarks fx H1) as Hx.
  cbn [map sum_qmarks fold_right filter length].
  fold (sum_qmarks (map InsertIntoExpression.set_part (map xupdate sets))).
  specialize (IH H2). destruct (is_field_op (snd fx)); cbn [length]; lia.
Qed.

(** X: in [sql.InsertIntoBuilder], a [Set] with a field operation (such as
    [Increment]) writes ["=`t`.`f`+"] with no placeholder but still adds its
    value to the arguments: the INSERT has as many arguments as placeholders
    plus one per field operation. *)
Theorem insert_into_field_op_unbalanced (t : string) (sets : list (Field * Expression))
    (s : string) (q : list value) :
  noq t = true -> forallb set_noq sets = true ->
  InsertIntoExpression.insert_SQL (xsets sets (InsertIntoExpression.InsertInto t)) = Ok (s, q) ->
  count_qmarks s + length (filter is_field_op (map snd sets)) = length q.
Proof.
  intros Ht Hs H. unfold noq in Ht. apply Nat.eqb_eq in Ht.
  destruct (xsets_updates sets (InsertIntoExpression.InsertInto t)) as [HT HU].
  unfold InsertIntoExpression.insert_SQL in H. rewrite HT, HU in H.
  cbn [InsertIntoExpression.InsertInto InsertIntoExpression.xb_tableName
       InsertIntoExpression.xb_updates app] in H.
  destruct (String.eqb t ""); [discriminate|].
  destruct sets as [|fx sets']; [discriminate|].
  cbn [map] in H.
  match type of H with
  | Ok (?S, ?Q) = Ok (s, q) =>
      assert (E : s = S /\ q = Q) by (inversion H; split; reflexivity)
  end.
  destruct E as [-> ->]. clear H.
  rewrite !count_qmarks_app, count_qmarks_join by reflexivity.
  pose proof (xupdates_qmarks (fx :: sets') Hs) as Hq.
  cbn [map length] in Hq |- *. rewrite !length_map, Ht.
  cbn [count_qmarks Ascii.eqb Bool.eqb]. lia.
Qed.

Lemma insert_into_field_op_unbalanced_witness :
  let r := InsertIntoExpression.insert_SQL
             (xsets [(t_age, Increment t_age 1); (t_id, XLit (VInt64 5))]
                (InsertIntoExpression.InsertInto "t")) in
  r = Ok ("INSERT INTO `t` SET `age`=`t`.`age`+, `id`=?", [VInt64 1; VInt64 5])
  /\ count_qmarks "INSERT INTO `t` SET `age`=`t`.`age`+, `id`=?" + 1 = 2.
Proof.
  intros r.
  assert (H : r = Ok ("INSERT INTO `t` SET `age`=`t`.`age`+, `id`=?", [VInt64 1; VInt64 5]))
    by reflexivity.
  split; [exact H|].
  exact (insert_into_field_op_unbalanced "t" [(t_age, Increment t_age 1); (t_id, XLit (VInt64 5))]
           _ _ eq_refl eq_refl H).
Defined.

(** A stored SET entry whose placeholders match its arguments. *)
Definition ins_ok (u : updateExpr) : Prop :=
  count_qmarks (insert_set_part u) = length (ue_params u).

Definition set_free (fv : Field * Expr) : bool :=
  noq (FieldName (fst fv)) && math_free (snd fv).

Lemma insert_Sets_keeps_balance (sets : list (Field * Expr)) (b : InsertIntoBuilder) :
  forallb set_free sets = true -> Forall ins_ok (ib_updates b) ->
  ib_tableName (insert_Sets sets b) = ib_tableName b
  /\ Forall ins_ok (ib_updates (insert_Sets sets b)).
Proof.
  revert b. induction sets as [|[f v] sets IH]; intros b Hs Hb; [split; [reflexivity|exact Hb]|].
  cbn [forallb] in Hs. apply andb_true_iff in Hs as [H1 H2].
  unfold set_free in H1. cbn [fst snd] in H1. apply andb_true_iff in H1 as [Hf Hm].
  change (insert_Sets ((f, v) :: sets) b) with (insert_Sets sets (insert_Set f v b)).
  assert (Hstep : ib_tableName (insert_Set f v b) = ib_tableName b
                  /\ Forall ins_ok (ib_updates (insert_Set f v b))).
  { unfold insert_Set. destruct (ib_err b); [split; [reflexivity|exact Hb]|].
    pose proof (math_free_balanced v Hm) as Hv.
    destruct (render v) as [[s p]|e]; cbn [ib_tableName ib_updates];
      split; try reflexivity; [|exact Hb].
    apply Forall_app; split; [exact Hb|]. constructor; [|constructor].
    unfold ins_ok, insert_set_part. cbn [ue_field ue_expr ue_params]. cbn in Hv.
    unfold noq in Hf. apply Nat.eqb_eq in Hf.
    rewrite !count_qmarks_app, Hf. cbn [count_qmarks Ascii.eqb Bool.eqb]. lia. }
  destruct Hstep as [Ht Hu].
  destruct (IH (insert_Set f v b) H2 Hu) as [Ht' Hu'].
  split; [rewrite Ht', Ht; reflexivity|exact Hu'].
Qed.

Lemma sum_ins_ok (us : list updateExpr) :
  Forall ins_ok us -> sum_qmarks (map insert_set_part us) = length (flat_map ue_params us).
Proof.
  induction 1 as [|u us Hu _ IH]; [reflexivity|].
  cbn [map flat_map sum_qmarks fold_right]. fold (sum_qmarks (map insert_set_part us)).
  rewrite length_app, <- Hu, IH. reflexivity.
Qed.

(** X: an INSERT built by [InsertInto(t).Set(...)...] whose values have no
    arithmetic chains and whose table and column names hold no [?] has one
    argument per placeholder. *)
Theorem insert_SQL_balanced (t : string) (sets : list (Field * Expr)) :
  noq t = true -> forallb set_free sets = true ->
  balanced (insert_SQL (insert_Sets sets (InsertInto t))).
Proof.
  intros Ht Hs. unfold noq in Ht. apply Nat.eqb_eq in Ht.
  destruct (insert_Sets_keeps_balance sets (InsertInto t) Hs (Forall_nil _)) as [HT HU].
  unfold insert_SQL. rewrite HT. cbn [ib_tableName InsertInto].
  destruct (ib_err (insert_Sets sets (InsertInto t))); [exact I|].
  destruct (String.eqb t ""); [exact I|].
  destruct (ib_updates (insert_Sets sets (InsertInto t))) as [|u us] eqn:Eu; [exact I|].
  unfold balanced. rewrite !count_qmarks_app, count_qmarks_join by reflexivity.
  rewrite Ht, sum_ins_ok by exact HU. reflexivity.
Qed.

Lemma insert_SQL_balanced_witness :
  balanced (insert_SQL (insert_Sets [(t_id, ELit (VInt64 1)); (t_age, Int64_Eq t_age 3)]
                          (InsertInto "t"))).
Proof. apply insert_SQL_balanced; reflexivity. Defined.

Lemma table_lookup_acc_in (fields : list Field) (name : string) (acc : option Field) (f : Field) :
  fold_left (fun acc f => if String.eqb (FieldName f) name then Some f else acc) fields acc = Some f ->
  acc = Some f \/ In f fields.
Proof.
  revert acc. induction fields as [|g fields IH]; intros acc H; [left; exact H|].
  cbn [fold_left] in H. apply IH in H as [H|H]; [|right; right; exact H].
  destruct (String.eqb (FieldName g) name); [injection H as ->; right; left; reflexivity|left; exact H].
Qed.

Lemma table_lookup_in (fields : list Field) (name : string) (f : Field) :
  table_lookup fields name = Some f -> In f fields.
Proof. intros H. apply table_lookup_acc_in in H as [H|H]; [discriminate|exact H]. Qed.

Section InsertProps.

Variable camel_to_snake : string -> string.
Variable now : Z.
Variable IsZero : Z -> bool.
Variable exec_insert : string -> list value -> Result Z.

(** A struct field [ORM.Insert] writes: exported and not named [Count]. *)
Definition ins_kept (f : IField) : bool :=
  if_exported f && negb (String.eqb (if_Name f) "Count").

(** The SET entry a kept field becomes, if it has a column and a value. *)
Definition ins_entry (tbl : Table) (f : IField) : option InsertIntoExpression.updateExpr :=
  match table_lookup (tbl_fields tbl) (camel_to_snake (if_Name f)),
        insert_value now IsZero (if_Name f) (if_value f) with
  | Some tf, Some x =>
      let '(s, v) := ToExpressionSQL x in Some (InsertIntoExpression.mkUpdateExpr tf s v)
  | _, _ => None
  end.

Lemma insert_fields_loop_ok (tbl : Table) (fs : list IField)
    (b : InsertIntoExpression.InsertIntoBuilder) :
  Forall (fun f => ins_entry tbl f <> None) (filter ins_kept fs) ->
  exists us, insert_fields_loop camel_to_snake now IsZero tbl fs b
             = Ok (InsertIntoExpression.mkInsertIntoBuilder (InsertIntoExpression.xb_tableName b)
                     (InsertIntoExpression.xb_updates b ++ us))
          /\ map Some us = map (ins_entry tbl) (filter ins_kept fs).
Proof.
  revert b. induction fs as [|f fs IH]; intros b Hall.
  - exists []. rewrite app_nil_r. destruct b; split; reflexivity.
  - assert (Hk : ins_kept f = if_exported f && negb (String.eqb (if_Name f) "Count"))
      by reflexivity.
    cbn [insert_fields_loop filter] in Hall |- *. rewrite Hk in Hall |- *.
    destruct (if_exported f) eqn:He; cbn [negb andb] in Hall |- *; [|apply IH, Hall].
    destruct (String.eqb (if_Name f) "Count") eqn:Hc; cbn [negb] in Hall |- *;
      [apply IH, Hall|].
    inversion Hall as [|f' fs' Hf Hrest]; subst f' fs'.
    cbn [map]. unfold ins_entry in Hf |- * at 1.
    destruct (table_lookup _ _) as [tf|]; [|exfalso; apply Hf; reflexivity].
    destruct (insert_value now IsZero (if_Name f) (if_value f)) as [x|];
      [|exfalso; apply Hf; reflexivity].
    destruct (IH (InsertIntoExpression.insert_Set tf x b) Hrest) as [us [Hl Hm]].
    rewrite Hl. unfold InsertIntoExpression.insert_Set.
    destruct (ToExpressionSQL x) as [s v].
    exists (InsertIntoExpression.mkUpdateExpr tf s v :: us).
    cbn [InsertIntoExpression.xb_tableName InsertIntoExpression.xb_updates map].
    split; [rewrite <- app_assoc; reflexivity|].
    rewrite Hm. reflexivity.
Qed.

Lemma insert_fields_loop_err (tbl : Table) (fs : list IField)
    (b : InsertIntoExpression.InsertIntoBuilder) :
  Exists (fun f => ins_entry tbl f = None) (filter ins_kept fs) ->
  exists e, insert_fields_loop camel_to_snake now IsZero tbl fs b = Err e.
Proof.
  revert b. induction fs as [|f fs IH]; intros b Hex; [inversion Hex|].
  assert (Hk : ins_kept f = if_exported f && negb (String.eqb (if_Name f) "Count"))
    by reflexivity.
  cbn [insert_fields_loop filter] in Hex |- *. rewrite Hk in Hex.
  destruct (if_exported f) eqn:He; cbn [negb andb] in Hex |- *; [|apply IH, Hex].
  destruct (String.eqb (if_Name f) "Count") eqn:Hc; cbn [negb] in Hex |- *; [apply IH, Hex|].
  destruct (table_lookup _ _) as [tf|] eqn:Hl; [|eexists; reflexivity].
  destruct (insert_value now IsZero (if_Name f) (if_value f)) as [x|] eqn:Hx;
    [|eexists; reflexivity].
  apply IH. inversion Hex as [f' fs' Hf|f' fs' Hrest]; subst; [|exact Hrest].
  unfold ins_entry in Hf. rewrite Hl, Hx in Hf.
  destruct (ToExpressionSQL x); discriminate.
Qed.

Lemma ins_entry_shape (tbl : Table) (f : IField) (u : InsertIntoExpression.updateExpr) :
  ins_entry tbl f = Some u ->
  InsertIntoExpression.xu_expr u = ""
  /\ In (InsertIntoExpression.xu_field u) (tbl_fields tbl)
  /\ (forall t, if_value f = ITime t ->
        (if_Name f = "CreateTime" \/ if_Name f = "UpdateTime") -> IsZero t = true ->
        InsertIntoExpression.xu_value u = VTime now).
Proof.
  unfold ins_entry. destruct (table_lookup _ _) as [tf|] eqn:Hl; [|discriminate].
  destruct (insert_value now IsZero (if_Name f) (if_value f)) as [x|] eqn:Hx; [|discriminate].
  assert (Hlit : exists v, x = XLit v).
  { unfold insert_value in Hx.
    destruct (if_value f); try (injection Hx as <-; eexists; reflexivity); try discriminate.
    destruct (_ && _); injection Hx as <-; eexists; reflexivity. }
  destruct Hlit as [v ->]. cbn [ToExpressionSQL]. intros H; injection H as <-.
  cbn [InsertIntoExpression.xu_expr InsertIntoExpression.xu_field InsertIntoExpression.xu_value].
  split; [reflexivity|]. split; [exact (table_lookup_in _ _ _ Hl)|].
  intros t Ht Hn Hz. unfold insert_value in Hx. rewrite Ht in Hx.
  assert (Hname : (String.eqb (if_Name f) "CreateTime" || String.eqb (if_Name f) "UpdateTime")
                  = true).
  { destruct Hn as [-> | ->]; reflexivity. }
  rewrite Hname, Hz in Hx. cbn [andb] in Hx. injection Hx as <-. reflexivity.
Qed.

Lemma map_Some_length {A B} (us : list A) (g : B -> option A) (l : list B) :
  map Some us = map g l -> length us = length l.
Proof. intros H. rewrite <- (length_map Some us), H, length_map. reflexivity. Qed.

(** X: [ORM.Insert] issues no [ExecInsert] when some exported field other
    than [Count] has no column in the table or a kind it cannot convert:
    it returns an error at once. *)
Theorem Insert_refused_before_exec (tbl : Table) (fs : list IField) :
  Exists (fun f => ins_entry tbl f = None) (filter ins_kept fs) ->
  exists e, Insert camel_to_snake now IsZero exec_insert tbl (Some fs) = Returns ([], Err e).
Proof.
  intros Hex. destruct (insert_fields_loop_err tbl fs
                          (InsertIntoExpression.InsertInto (tbl_name tbl)) Hex) as [e He].
  exists e. unfold Insert. rewrite He. reflexivity.
Qed.

(** X: [ORM.Insert] on a model whose exported non-[Count] fields all have a
    column and a supported kind issues exactly one [ExecInsert] and returns
    its result: one argument per such field, one [?] per argument, and a
    zero [CreateTime] or [UpdateTime] field's own argument (at its position
    among the written fields) sent as the current time. *)
Theorem Insert_one_exec (tbl : Table) (fs : list IField) :
  tbl_name tbl <> "" -> filter ins_kept fs <> [] ->
  Forall (fun f => ins_entry tbl f <> None) (filter ins_kept fs) ->
  exists q args,
    Insert camel_to_snake now IsZero exec_insert tbl (Some fs)
      = Returns ([(q, args)], wrap_err "failed to execute Insert" (exec_insert q args))
    /\ length args = length (filter ins_kept fs)
    /\ (noq (tbl_name tbl) = true -> forallb (fun c => noq (FieldName c)) (tbl_fields tbl) = true ->
        count_qmarks q = length args)
    /\ (forall i f t, nth_error (filter ins_kept fs) i = Some f -> if_value f = ITime t ->
          (if_Name f = "CreateTime" \/ if_Name f = "UpdateTime") -> IsZero t = true ->
          nth_error args i = Some (VTime now)).
Proof.
  intros Hn Hne Hall.
  destruct (insert_fields_loop_ok tbl fs (InsertIntoExpression.InsertInto (tbl_name tbl)) Hall)
    as [us [Hl Hm]].
  cbn [InsertIntoExpression.InsertInto InsertIntoExpression.xb_tableName
       InsertIntoExpression.xb_updates app] in Hl.
  pose proof (map_Some_length _ _ _ Hm) as Hlen.
  unfold Insert. rewrite Hl. unfold InsertIntoExpression.insert_SQL.
  cbn [InsertIntoExpression.xb_tableName InsertIntoExpression.xb_updates].
  apply String.eqb_neq in Hn. rewrite Hn.
  destruct us as [|u0 us0] eqn:Eus.
  { destruct (filter ins_kept fs); [contradiction|discriminate]. }
  rewrite <- Eus in *.
  eexists; eexists. split; [reflexivity|].
  split; [rewrite length_map; exact Hlen|]. split.
  - intros Ht Hc. unfold noq in Ht. apply Nat.eqb_eq in Ht.
    assert (Hparts : Forall (fun u => count_qmarks (InsertIntoExpression.set_part u) = 1) us).
    { apply Forall_forall. intros u Hu.
      assert (Hex : exists f, In f (filter ins_kept fs) /\ ins_entry tbl f = Some u).
      { assert (Hin : In (Some u) (map (ins_entry tbl) (filter ins_kept fs)))
          by (rewrite <- Hm; apply in_map, Hu).
        apply in_map_iff in Hin as [f [Hf Hin]]. exists f. split; assumption. }
      destruct Hex as [f [_ Hf]]. destruct (ins_entry_shape tbl f u Hf) as [He [Hin _]].
      rewrite forallb_forall in Hc. specialize (Hc _ Hin). unfold noq in Hc.
      apply Nat.eqb_eq in Hc. unfold InsertIntoExpression.set_part. rewrite He.
      cbn [String.eqb]. repeat (rewrite count_qmarks_app || cbn [count_qmarks Ascii.eqb Bool.eqb]).
      lia. }
    rewrite Eus in Hparts |- *.
    rewrite !count_qmarks_app, count_qmarks_join by reflexivity.
    rewrite sum_qmarks_map_one by exact Hparts. rewrite length_map, Ht. reflexivity.
  - intros i f t Hf Hv Hname Hz.
    assert (Hs : ins_entry tbl f <> None)
      by (apply nth_error_In in Hf; rewrite Forall_forall in Hall; exact (Hall f Hf)).
    destruct (ins_entry tbl f) as [u|] eqn:Hu; [|contradiction].
    destruct (ins_entry_shape tbl f u Hu) as [_ [_ Htime]].
    assert (Hui : nth_error us i = Some u).
    { assert (E := f_equal (fun l => nth_error l i) Hm). cbn beta in E.
      rewrite !nth_error_map, Hf in E. cbn [option_map] in E. rewrite Hu in E.
      destruct (nth_error us i); cbn [option_map] in E; congruence. }
    rewrite nth_error_map, Hui. cbn [option_map]. rewrite (Htime t Hv Hname Hz). reflexivity.
Qed.

(** X: [ORM.Insert] on a model with no exported field other than [Count]
    fails with "no columns specified", wrapped as a build error, without
    executing anything. *)
Theorem Insert_no_columns (tbl : Table) (fs : list IField) :
  tbl_name tbl <> "" -> filter ins_kept fs = [] ->
  Insert camel_to_snake now IsZero exec_insert tbl (Some fs)
  = Returns ([], Err (ErrWrap "failed to build insert SQL" (ErrMsg "no columns specified"))).
Proof.
  intros Hn Hk.
  destruct (insert_fields_loop_ok tbl fs (InsertIntoExpression.InsertInto (tbl_name tbl)))
    as [us [Hl Hm]]; [rewrite Hk; constructor|].
  rewrite Hk in Hm. destruct us; [|discriminate].
  unfold Insert. rewrite Hl. unfold InsertIntoExpression.insert_SQL.
  cbn [InsertIntoExpression.xb_tableName InsertIntoExpression.xb_updates
       InsertIntoExpression.InsertInto app].
  apply String.eqb_neq in Hn. rewrite Hn. reflexivity.
Qed.

End InsertProps.

(** A [CamelToSnake] for ASCII names, used by the examples. *)
Fixpoint ex_snake_loop (first : bool) (s : string) : string :=
  match s with
  | EmptyString => EmptyString
  | String c r =>
      if rune_is_upper c
      then (if first then "" else "_") ++ String (ascii_of_nat (nat_of_ascii c + 32)) (ex_snake_loop false r)
      else String c (ex_snake_loop false r)
  end.
Definition ex_c2s (s : string) : string := ex_snake_loop true s.
Definition ex_IsZero (t : Z) : bool := Z.eqb t 0.
Definition ex_exec_insert (q : string) (args : list value) : Result Z := Ok 42%Z.
Definition ex_ins_table : Table :=
  mkTable "t" [t_id; t_age; mkField "create_time" "t" KTime].
Definition ex_model : list IField :=
  [mkIField "Age" true (IInt 30); mkIField "CreateTime" true (ITime 0);
   mkIField "Count" true (IInt 9); mkIField "secret" false (IOther "chan int")].

Lemma Insert_refused_before_exec_witness :
  Insert ex_c2s 1000 ex_IsZero ex_exec_insert ex_ins_table
    (Some (mkIField "Name" true (IString "x") :: ex_model))
  = Returns ([], Err (ErrMsg "field name not found in table t")).
Proof.
  assert (Hex : Exists (fun f => ins_entry ex_c2s 1000 ex_IsZero ex_ins_table f = None)
                  (filter ins_kept (mkIField "Name" true (IString "x") :: ex_model)))
    by (apply Exists_cons_hd; reflexivity).
  destruct (Insert_refused_before_exec ex_c2s 1000 ex_IsZero ex_exec_insert ex_ins_table _ Hex)
    as [e He].
  rewrite He. assert (Hr : Insert ex_c2s 1000 ex_IsZero ex_exec_insert ex_ins_table
                    (Some (mkIField "Name" true (IString "x") :: ex_model))
                  = Returns ([], Err (ErrMsg "field name not found in table t")))
    by reflexivity.
  rewrite He in Hr. exact Hr.
Defined.

Lemma Insert_one_exec_witness :
  Insert ex_c2s 1000 ex_IsZero ex_exec_insert ex_ins_table (Some ex_model)
  = Returns ([("INSERT INTO `t` SET `age`=?, `create_time`=?", [VInt64 30; VTime 1000])], Ok 42%Z)
  /\ exists q args,
       Insert ex_c2s 1000 ex_IsZero ex_exec_insert ex_ins_table (Some ex_model)
         = Returns ([(q, args)], wrap_err "failed to execute Insert" (ex_exec_insert q args))
       /\ nth_error args 1 = Some (VTime 1000).
Proof.
  split; [reflexivity|].
  assert (Hn : tbl_name ex_ins_table <> "") by discriminate.
  assert (Hne : filter ins_kept ex_model <> []) by discriminate.
  assert (Hall : Forall (fun f => ins_entry ex_c2s 1000 ex_IsZero ex_ins_table f <> None)
                   (filter ins_kept ex_model)).
  { repeat constructor; discriminate. }
  destruct (Insert_one_exec ex_c2s 1000 ex_IsZero ex_exec_insert ex_ins_table ex_model Hn Hne Hall)
    as [q [args [H [_ [_ Ht]]]]].
  exists q, args. split; [exact H|].
  apply (Ht 1 (mkIField "CreateTime" true (ITime 0)) 0%Z); [reflexivity|reflexivity|
    left; reflexivity|reflexivity].
Defined.

Lemma Insert_no_columns_witness :
  Insert ex_c2s 1000 ex_IsZero ex_exec_insert ex_ins_table
    (Some [mkIField "Count" true (IInt 9); mkIField "secret" false (IOther "chan int")])
  = Returns ([], Err (ErrWrap "failed to build insert SQL" (ErrMsg "no columns specified"))).
Proof.
  assert (Hn : tbl_name ex_ins_table <> "") by discriminate.
  exact (Insert_no_columns ex_c2s 1000 ex_IsZero ex_exec_insert ex_ins_table
           [mkIField "Count" true (IInt 9); mkIField "secret" false (IOther "chan int")] Hn eq_refl).
Defined.

(* ---- Field naming ---- *)

Definition upper_opt (p : option ascii) : bool :=
  match p with Some r => rune_is_upper r | None => false end.

Lemma rune_lowered_not_upper (r : ascii) :
  rune_is_upper r = true -> rune_is_upper (ascii_of_nat (nat_of_ascii r + 32)) = false.
Proof.
  unfold rune_is_upper. intros H. apply andb_true_iff in H as [H1 H2].
  apply Nat.leb_le in H1, H2.
  rewrite Ascii.nat_ascii_embedding by lia.
  destruct (Nat.leb_spec 65 (nat_of_ascii r + 32)); destruct (Nat.leb_spec (nat_of_ascii r + 32) 90);
    cbn [andb]; try reflexivity; lia.
Qed.

Lemma rune_lower_not_upper (r : ascii) : rune_is_lower r = true -> rune_is_upper r = false.
Proof.
  unfold rune_is_lower, rune_is_upper. intros H. apply andb_true_iff in H as [H1 H2].
  apply Nat.leb_le in H1, H2.
  destruct (Nat.leb_spec 65 (nat_of_ascii r)); destruct (Nat.leb_spec (nat_of_ascii r) 90);
    cbn [andb]; try reflexivity; lia.
Qed.

Lemma strict_camel_loop_valid (prev : option ascii) (s : string) :
  consecutive_upper_loop (upper_opt prev) s = false -> strict_camel_loop prev s = s.
Proof.
  revert prev. induction s as [|r rest IH]; intros prev H; [reflexivity|].
  cbn [consecutive_upper_loop] in H. cbn [strict_camel_loop].
  destruct (rune_is_upper r && upper_opt prev) eqn:Hup; [discriminate|].
  rewrite (IH (Some r) H).
  destruct prev as [p|]; [|reflexivity]. cbn [upper_opt] in Hup.
  rewrite Hup. reflexivity.
Qed.

(** X: a field name without two consecutive uppercase letters passes
    [validateFieldNaming], and [toStrictCamelCase] leaves it unchanged. *)
Theorem strict_camel_valid_unchanged (s : string) :
  hasConsecutiveUppercase s = false ->
  toStrictCamelCase s = s /\ validateFieldNaming s = None.
Proof.
  intros H. unfold validateFieldNaming. rewrite H. split; [|reflexivity].
  unfold toStrictCamelCase. destruct (String.eqb s ""); [reflexivity|].
  apply strict_camel_loop_valid, H.
Qed.

Lemma strict_camel_valid_unchanged_witness :
  toStrictCamelCase "SomeId" = "SomeId" /\ validateFieldNaming "SomeId" = None.
Proof. apply strict_camel_valid_unchanged. reflexivity. Defined.

Lemma strict_camel_loop_twice (prev prev2 : option ascii) (s : string) :
  (upper_opt prev2 = true -> upper_opt prev = true) ->
  strict_camel_loop prev2 (strict_camel_loop prev s) = strict_camel_loop prev s.
Proof.
  revert prev prev2. induction s as [|r rest IH]; intros prev prev2 Hp; [reflexivity|].
  cbn [strict_camel_loop].
  destruct (rune_is_upper r) eqn:Hr.
  - destruct prev as [p|]; cbn [upper_opt] in Hp.
    + destruct (rune_is_upper p) eqn:Hpu; cbn [andb].
      * destruct (match rest with String n _ => rune_is_lower n | EmptyString => false end)
          eqn:Hn; cbn [negb].
        { (* the next rune is lowercase: [r] is kept, and kept again *)
          cbn [strict_camel_loop].
          rewrite (IH (Some r) (Some r)) by (intros H; exact H).
          destruct rest as [|n rest']; [discriminate|].
          cbn [strict_camel_loop]. rewrite (rune_lower_not_upper n Hn).
          destruct prev2; cbn [andb]; [rewrite Hr; cbn [andb]; rewrite Hn; cbn [negb];
            rewrite andb_false_r|]; reflexivity. }
        { (* [r] is lowered and then left alone *)
          cbn [strict_camel_loop]. rewrite rune_lowered_not_upper by exact Hr.
          rewrite (IH (Some r) (Some _)) by (cbn [upper_opt]; rewrite rune_lowered_not_upper
                                             by exact Hr; discriminate).
          destruct prev2; reflexivity. }
      * cbn [strict_camel_loop]. rewrite (IH (Some r) (Some r)) by (intros H; exact H).
        destruct prev2 as [p2|]; [|reflexivity]. cbn [upper_opt] in Hp.
        destruct (rune_is_upper p2); [discriminate (Hp eq_refl)|].
        rewrite Hr. reflexivity.
    + cbn [strict_camel_loop]. rewrite (IH (Some r) (Some r)) by (intros H; exact H).
      destruct prev2 as [p2|]; [|reflexivity]. cbn [upper_opt] in Hp.
      destruct (rune_is_upper p2); [discriminate (Hp eq_refl)|].
      rewrite Hr. reflexivity.
  - assert (Hl : match prev with
                 | Some p => false && rune_is_upper p && negb match rest with
                                                          | String n _ => rune_is_lower n
                                                          | EmptyString => false
                                                          end
                 | None => false
                 end = false) by (destruct prev; reflexivity).
    rewrite Hl. cbn [strict_camel_loop]. rewrite (IH (Some r) (Some r)) by (cbn [upper_opt]; rewrite Hr; discriminate).
    rewrite Hr. destruct prev2; reflexivity.
Qed.

(** X: [toStrictCamelCase] is idempotent: the name it suggests is left
    unchanged by a second conversion. *)
Theorem toStrictCamelCase_idempotent (s : string) :
  toStrictCamelCase (toStrictCamelCase s) = toStrictCamelCase s.
Proof.
  unfold toStrictCamelCase. destruct s as [|r rest]; [reflexivity|].
  cbn [String.eqb]. cbn [strict_camel_loop]. cbn [String.eqb].
  exact (strict_camel_loop_twice None None (String r rest) (fun H => H)).
Qed.

(** The rune before [s] once [pre] has been read. *)
Fixpoint last_rune (prev : option ascii) (pre : string) : option ascii :=
  match pre with
  | EmptyString => prev
  | String r pre' => last_rune (Some r) pre'
  end.

Lemma strict_camel_loop_app (prev : option ascii) (pre s : string) :
  exists x, strict_camel_loop prev (pre ++ s) = x ++ strict_camel_loop (last_rune prev pre) s.
Proof.
  revert prev. induction pre as [|r pre IH]; intros prev; [exists ""; reflexivity|].
  cbn [append strict_camel_loop last_rune].
  destruct (IH (Some r)) as [x Hx]. rewrite Hx.
  eexists (String _ x). reflexivity.
Qed.

Lemma consecutive_upper_loop_app (q : bool) (x : string) (a b : ascii) (rest : string) :
  rune_is_upper a = true -> rune_is_upper b = true ->
  consecutive_upper_loop q (x ++ String a (String b rest)) = true.
Proof.
  intros Ha Hb. revert q. induction x as [|r x IH]; intros q.
  - cbn [append consecutive_upper_loop]. rewrite Ha, Hb.
    destruct q; reflexivity.
  - cbn [append consecutive_upper_loop]. rewrite IH. destruct (_ && _); reflexivity.
Qed.

(** X: when a field name holds two uppercase letters followed by a
    lowercase one, with no uppercase letter just before them (as in ["IDs"]
    or ["UserIDs"]), [validateFieldNaming] rejects it and the name it
    suggests with [toStrictCamelCase] is rejected too. *)
Theorem strict_camel_suggestion_still_invalid (pre post : string) (a b c : ascii) :
  rune_is_upper a = true -> rune_is_upper b = true -> rune_is_lower c = true ->
  upper_opt (last_rune None pre) = false ->
  let s := (pre ++ String a (String b (String c post)))%string in
  validateFieldNaming s <> None /\ validateFieldNaming (toStrictCamelCase s) <> None.
Proof.
  intros Ha Hb Hc Hpre s.
  assert (Hs : hasConsecutiveUppercase s = true)
    by (apply consecutive_upper_loop_app; assumption).
  assert (Ht : hasConsecutiveUppercase (toStrictCamelCase s) = true).
  { unfold toStrictCamelCase.
    destruct (String.eqb s "") eqn:E; [exact Hs|].
    destruct (strict_camel_loop_app None pre (String a (String b (String c post)))) as [x Hx].
    unfold s. rewrite Hx.
    cbn [strict_camel_loop]. rewrite (rune_lower_not_upper c Hc), Hb, Ha, Hc.
    destruct (last_rune None pre) as [p|]; cbn [upper_opt] in Hpre;
      [rewrite Hpre|]; cbn [andb negb];
      apply consecutive_upper_loop_app; assumption. }
  unfold validateFieldNaming. rewrite Hs, Ht. split; discriminate.
Qed.

Lemma strict_camel_suggestion_still_invalid_witness :
  toStrictCamelCase "UserIDs" = "UserIDs"
  /\ validateFieldNaming "UserIDs" <> None
  /\ validateFieldNaming (toStrictCamelCase "UserIDs") <> None.
Proof.
  split; [reflexivity|].
  exact (strict_camel_suggestion_still_invalid "User" "" "I" "D" "s" eq_refl eq_refl eq_refl eq_refl).
Defined.

(* ---- Functions, AND/OR and NOT ---- *)

Lemma func_loop_first_error (i : nat) (pre : list Expr) (a : Expr) (post : list Expr) (e : error)
    (parts : list string) (params : list value) :
  Forall (fun c => exists r, render c = Ok r) pre -> render a = Err e ->
  func_loop i (map render (pre ++ a :: post)) parts params = Err (ErrArg (i + length pre) e).
Proof.
  intros Hpre Ha. revert i parts params.
  induction Hpre as [|c pre [[s p] Hc] _ IH]; intros i parts params.
  - cbn [app map func_loop]. rewrite Ha, Nat.add_0_r. reflexivity.
  - cbn [app map func_loop]. rewrite Hc, IH. cbn [length]. rewrite Nat.add_succ_r. reflexivity.
Qed.

(** X: a SQL function call fails with the error of its first failing
    argument, tagged with that argument's 0-based index ([arg[i]: ...]). *)
Theorem Func_first_error_indexed (name : string) (pre : list Expr) (a : Expr)
    (post : list Expr) (e : error) :
  Forall (fun c => exists r, render c = Ok r) pre -> render a = Err e ->
  render (Func name (pre ++ a :: post)) = Err (ErrArg (length pre) e).
Proof.
  intros Hpre Ha. unfold Func. cbn [render].
  rewrite (func_loop_first_error 0 pre a post e [] [] Hpre Ha). reflexivity.
Qed.

Lemma Func_first_error_indexed_witness :
  render (Func "COALESCE" [EField t_age; ELit (VInt64 1); ECustom (Err (ErrMsg "bad"));
                           ECustom (Err (ErrMsg "later"))])
  = Err (ErrArg 2 (ErrMsg "bad")).
Proof.
  assert (Hpre : Forall (fun c => exists r, render c = Ok r) [EField t_age; ELit (VInt64 1)])
    by (repeat constructor; eexists; reflexivity).
  exact (Func_first_error_indexed "COALESCE" [EField t_age; ELit (VInt64 1)]
           (ECustom (Err (ErrMsg "bad"))) [ECustom (Err (ErrMsg "later"))] (ErrMsg "bad")
           Hpre eq_refl).
Defined.

Lemma join_loop_first_error (pre : list Expr) (a : Expr) (post : list Expr) (e : error)
    (parts : list string) (params : list value) :
  Forall (fun c => exists r, render c = Ok r) pre -> render a = Err e ->
  join_loop (map render (pre ++ a :: post)) parts params = Err e.
Proof.
  intros Hpre Ha. revert parts params.
  induction Hpre as [|c pre [[s p] Hc] _ IH]; intros parts params.
  - cbn [app map join_loop]. rewrite Ha. reflexivity.
  - cbn [app map join_loop]. rewrite Hc. destruct (String.eqb s ""); apply IH.
Qed.

(** X: [and()] and [or()] fail with the error of their first failing
    sub-expression, passed on unwrapped; later sub-expressions are not
    looked at. *)
Theorem and_or_first_error (pre : list Expr) (a : Expr) (post : list Expr) (e : error) :
  Forall (fun c => exists r, render c = Ok r) pre -> render a = Err e ->
  render (EAnd (pre ++ a :: post)) = Err e /\ render (EOr (pre ++ a :: post)) = Err e.
Proof.
  intros Hpre Ha. cbn [render]. unfold join_rendered.
  destruct (map render (pre ++ a :: post)) eqn:Hm;
    [destruct pre; discriminate|].
  rewrite <- Hm, (join_loop_first_error pre a post e [] [] Hpre Ha). split; reflexivity.
Qed.

Lemma and_or_first_error_witness :
  render (EAnd [Int64_Eq t_id 1; ECustom (Err (ErrMsg "bad")); ECustom (Err (ErrMsg "later"))])
  = Err (ErrMsg "bad")
  /\ render (EOr [Int64_Eq t_id 1; ECustom (Err (ErrMsg "bad")); ECustom (Err (ErrMsg "later"))])
     = Err (ErrMsg "bad").
Proof.
  assert (Hpre : Forall (fun c => exists r, render c = Ok r) [Int64_Eq t_id 1])
    by (repeat constructor; eexists; reflexivity).
  exact (and_or_first_error [Int64_Eq t_id 1] (ECustom (Err (ErrMsg "bad")))
           [ECustom (Err (ErrMsg "later"))] (ErrMsg "bad") Hpre eq_refl).
Defined.

(** X: [Not(...)] over conditions that all render to nothing (such as
    no-ops) renders the fragment ["NOT ()"], while [and()] over the same
    conditions is a no-op; only [Not()] with no condition renders empty. *)
Theorem Not_of_empty_conditions (cs : list Expr) :
  cs <> [] -> Forall renders_empty cs ->
  (exists p, render (Not cs) = Ok ("NOT ()", p)) /\ render (EAnd cs) = Ok ("", []).
Proof.
  intros Hne Hall. unfold Not. cbn [render].
  assert (Hj : join_rendered (map render cs) "AND" = Ok ("", [])).
  { unfold join_rendered. destruct cs as [|c cs']; [contradiction|].
    change (map render (c :: cs')) with (render c :: map render cs').
    rewrite <- (map_cons render c cs'), (join_loop_empties (c :: cs') [] [] Hall).
    reflexivity. }
  split; [|exact Hj].
  destruct cs as [|c [|c2 cs']]; [contradiction| |].
  - inversion Hall as [|c' cs'' [p Hp] _]; subst. rewrite Hp. exists p. reflexivity.
  - rewrite Hj. exists []. reflexivity.
Qed.

Lemma Not_of_empty_conditions_witness :
  render (Not [ENoOp; EIn t_age []]) = Ok ("NOT ()", [])
  /\ render (EAnd [ENoOp; EIn t_age []]) = Ok ("", []).
Proof.
  assert (Hne : [ENoOp; EIn t_age []] <> []) by discriminate.
  assert (Hall : Forall renders_empty [ENoOp; EIn t_age []])
    by (repeat constructor; eexists; reflexivity).
  destruct (Not_of_empty_conditions _ Hne Hall) as [_ Ha].
  split; [reflexivity|exact Ha].
Defined.
